(** * VisionMate guidance and memory core: a shallow embedding

    The Python sources embedded here are [item_tracker.py],
    [audio_feedback.py], [navigation_engine.py] (with the navigator it
    drives, [google_maps_navigator.py]), [spatial_navigator.py],
    [obstacle_fusion.py], [visual_matcher.py], [object_memory.py] and the
    tables of [database.py] they write.

    Conventions.
    - Pixel coordinates are Python [int]s: [Z].
    - Python [float]s (IoU, seconds, metres, confidences) are read as the
      exact rationals they denote: [Q], compared with [Qle_bool].  Every
      comparison of the sources is kept with its own strictness.
    - A [dict] used as a map is a [gmap]; a [set] is a [gset]; a list whose
      order matters stays a [list].
    - Mutable attributes become record fields, methods return the new
      record next to their result.  The wall clock ([time.time()]) is an
      argument. *)

From Stdlib Require Import ZArith QArith Qminmax Qabs Lia Lqa OrderedTypeEx List Bool Ascii String Permutation Sorted.
From stdpp Require Import base option list strings gmap fin_sets.

Local Open Scope Z_scope.

(** ** Rational comparisons as booleans *)

Definition Qlt_bool (x y : Q) : bool := negb (Qle_bool y x).

(** ** config.py *)

Module Config.

Definition ITEM_TRACKING_TIMEOUT : Q := 3.
Definition IOU_THRESHOLD : Q := 3 # 10.
Definition OBJECT_MEMORY_MATCH_THRESHOLD : Q := 1 # 2.

Definition PRIORITY_EMERGENCY : Z := 1.
Definition PRIORITY_SOCIAL : Z := 2.
Definition PRIORITY_NAVIGATIONAL : Z := 3.
Definition PRIORITY_STATUS : Z := 4.

Definition NAVIGATION_ANNOUNCEMENT_DISTANCE : Q := 50.
Definition NAVIGATION_REROUTE_DISTANCE : Q := 30.
Definition NAVIGATION_ARRIVAL_DISTANCE : Q := 20.

End Config.

(** ** Detections, as [ObjectDetector.detect] produces them *)

Record BBox := mkBBox { bx1 : Z; by1 : Z; bx2 : Z; by2 : Z }.

Record Detection := mkDetection {
  class_name : string;
  bbox : BBox;
  confidence : Q
}.

(** [x in xs] for a Python list of strings. *)
Definition str_in (x : string) (xs : list string) : bool :=
  existsb (String.eqb x) xs.

(** ** database.py: the tables the core writes *)

Module Database.

(** The stored feature dictionary ([json.dumps] of the dict built by
    [VisualMatcher]).  The two shapes of the dict are the two constructors;
    a [descriptors] entry holding [None] is [None] here. *)
Record KeypointData := mkKeypoints {
  keypoints : list (Q * Q);
  keypoint_sizes : list Q;
  keypoint_angles : list Q;
  descriptors : option (list (list Z));
  color_hist : list Q
}.

Inductive Features :=
| DeepFeatures (deep_embedding : list Q) (embedding_size : nat)
    (num_frames : option nat)
| KeypointFeatures (k : KeypointData) (num_frames : option nat).

(** One row of [remembered_objects]. *)
Record RememberedObject := mkRemembered {
  ro_id : Z;
  ro_custom_name : string;
  ro_yolo_class : string;
  ro_visual_features : Features;
  ro_enrollment_frames : nat
}.

(** [item_locations] has [UNIQUE(item)]: a map from item to location.
    [remembered_objects] is kept in rowid order, which is the order a
    [SELECT] without [ORDER BY] scans it in; [ro_seq] is the
    [AUTOINCREMENT] counter.  The timestamp columns are left out. *)
Record VisionMateDB := mkDB {
  item_locations : gmap string string;
  remembered_objects : list RememberedObject;
  ro_seq : Z
}.

Definition empty_db : VisionMateDB := mkDB ∅ [] 0.

(** [INSERT ... ON CONFLICT(item) DO UPDATE]. *)
Definition update_item_location (item location : string)
    (db : VisionMateDB) : VisionMateDB :=
  mkDB (<[item := location]> (item_locations db))
       (remembered_objects db) (ro_seq db).

Definition get_item_location (item : string) (db : VisionMateDB)
    : option string :=
  item_locations db !! item.

Definition get_remembered_object (custom_name : string) (db : VisionMateDB)
    : option RememberedObject :=
  List.find (fun r => String.eqb (ro_custom_name r) custom_name)
            (remembered_objects db).

(** Returns the new row id, or [-1] on the [IntegrityError] raised by the
    [UNIQUE] constraint on [custom_name]. *)
Definition add_remembered_object (custom_name yolo_class : string)
    (visual_features : Features) (enrollment_frames : nat)
    (db : VisionMateDB) : Z * VisionMateDB :=
  match get_remembered_object custom_name db with
  | Some _ => (-1, db)
  | None =>
      let rowid := ro_seq db + 1 in
      (rowid,
       mkDB (item_locations db)
            (remembered_objects db ++
               [mkRemembered rowid custom_name yolo_class visual_features
                             enrollment_frames])
            rowid)
  end.

(** [SELECT id, custom_name, visual_features ... WHERE yolo_class = ?]. *)
Definition get_remembered_objects_by_class (yolo_class : string)
    (db : VisionMateDB) : list (Z * string * Features) :=
  List.map (fun r => (ro_id r, ro_custom_name r, ro_visual_features r))
    (List.filter (fun r => String.eqb (ro_yolo_class r) yolo_class)
                 (remembered_objects db)).

End Database.

(** ** item_tracker.py *)

Module ItemTracker.
Import Database.

(** [self.tracking_state[pair_key]]. *)
Record TrackState := mkTrack { start_time : Q; confirmed : bool }.

Abbreviation PairKey := (string * string)%type.

Record Tracker := mkTracker {
  db : VisionMateDB;
  timeout : Q;
  iou_threshold : Q;
  tracking_state : gmap PairKey TrackState
}.

Definition init (d : VisionMateDB) : Tracker :=
  mkTracker d Config.ITEM_TRACKING_TIMEOUT Config.IOU_THRESHOLD ∅.

(** Python's [intersection / union] on ints is true division. *)
Definition calculate_iou (box1 box2 : BBox) : Q :=
  let x1_i := Z.max (bx1 box1) (bx1 box2) in
  let y1_i := Z.max (by1 box1) (by1 box2) in
  let x2_i := Z.min (bx2 box1) (bx2 box2) in
  let y2_i := Z.min (by2 box1) (by2 box2) in
  if (x2_i <? x1_i) || (y2_i <? y1_i) then 0%Q
  else
    let intersection := (x2_i - x1_i) * (y2_i - y1_i) in
    let area1 := (bx2 box1 - bx1 box1) * (by2 box1 - by1 box1) in
    let area2 := (bx2 box2 - bx1 box2) * (by2 box2 - by1 box2) in
    let union := area1 + area2 - intersection in
    if union =? 0 then 0%Q
    else (inject_Z intersection / inject_Z union)%Q.

Definition is_inside (iou_thr : Q) (item_box container_box : BBox) : bool :=
  let iou := calculate_iou item_box container_box in
  let item_cx := (inject_Z (bx1 item_box + bx2 item_box) / 2)%Q in
  let item_cy := (inject_Z (by1 item_box + by2 item_box) / 2)%Q in
  let inside_bounds :=
    Qle_bool (inject_Z (bx1 container_box)) item_cx &&
    Qle_bool item_cx (inject_Z (bx2 container_box)) &&
    Qle_bool (inject_Z (by1 container_box)) item_cy &&
    Qle_bool item_cy (inject_Z (by2 container_box)) in
  Qlt_bool iou_thr iou || inside_bounds.

Definition container_classes : list string := ["chair"; "sofa"; "tv"]%string.
Definition item_classes : list string := ["keys"; "bottle"]%string.

(** One entry of the returned [confirmed_locations]. *)
Record Confirmed := mkConfirmed {
  c_item : string; c_location : string; c_timestamp : Q
}.

(** What the two nested [for] loops thread through their iterations. *)
Record Loop := mkLoop {
  l_active : gset PairKey;
  l_state : gmap PairKey TrackState;
  l_confirmed : list Confirmed;
  l_db : VisionMateDB
}.

(** The body under [if self.is_inside(...)], for one pair key. *)
Definition visit (current_time tmo : Q) (pair_key : PairKey) (acc : Loop)
    : Loop :=
  let active := {[pair_key]} ∪ l_active acc in
  match l_state acc !! pair_key with
  | Some state =>
      let elapsed := (current_time - start_time state)%Q in
      if Qle_bool tmo elapsed && negb (confirmed state) then
        mkLoop active
          (<[pair_key := mkTrack (start_time state) true]> (l_state acc))
          (l_confirmed acc ++
             [mkConfirmed (fst pair_key) (snd pair_key) current_time])
          (update_item_location (fst pair_key) (snd pair_key) (l_db acc))
      else mkLoop active (l_state acc) (l_confirmed acc) (l_db acc)
  | None =>
      mkLoop active
        (<[pair_key := mkTrack current_time false]> (l_state acc))
        (l_confirmed acc) (l_db acc)
  end.

(** The pair keys the nested loops reach the body with, in loop order:
    item-major, container-minor, one occurrence per passing test. *)
Definition inside_pairs (iou_thr : Q) (items containers : list Detection)
    : list PairKey :=
  List.flat_map
    (fun item =>
       List.map (fun container => (class_name item, class_name container))
         (List.filter
            (fun container => is_inside iou_thr (bbox item) (bbox container))
            containers))
    items.

Definition update_tracking (current_time : Q) (detections : list Detection)
    (t : Tracker) : list Confirmed * Tracker :=
  let items :=
    List.filter (fun d => str_in (class_name d) item_classes) detections in
  let containers :=
    List.filter (fun d => str_in (class_name d) container_classes)
                detections in
  let acc :=
    List.fold_left (fun acc k => visit current_time (timeout t) k acc)
      (inside_pairs (iou_threshold t) items containers)
      (mkLoop ∅ (tracking_state t) [] (db t)) in
  let inactive_pairs := dom (l_state acc) ∖ l_active acc in
  let cleared := set_fold (fun pair m => delete pair m) (l_state acc)
                          inactive_pairs in
  (l_confirmed acc,
   mkTracker (l_db acc) (timeout t) (iou_threshold t) cleared).

End ItemTracker.

(** ** audio_feedback.py *)

Module AudioFeedback.

(** A queue entry is the tuple [(priority, text)] handed to
    [queue.PriorityQueue.put].  Texts are compared character by
    character, as Python compares [str]. *)
Abbreviation Entry := (Z * string)%type.

(** Python's ordering of such tuples: by priority, then by text. *)
Definition entry_ltb (a b : Entry) : bool :=
  (fst a <? fst b) || ((fst a =? fst b) && String.ltb (snd a) (snd b)).

Definition entry_leb (a b : Entry) : bool := negb (entry_ltb b a).

(** [queue.PriorityQueue]: [put] adds an entry, [get] removes a least one.
    The queue is kept as the list of pending entries in arrival order and
    [get] takes out the first least entry; two entries that compare equal
    are the same tuple, so which of them leaves first cannot be told. *)
Fixpoint least (x : Entry) (q : list Entry) : Entry :=
  match q with
  | [] => x
  | y :: r => least (if entry_ltb y x then y else x) r
  end.

Fixpoint remove_first (x : Entry) (q : list Entry) : list Entry :=
  match q with
  | [] => []
  | y :: r =>
      if (fst y =? fst x) && String.eqb (snd y) (snd x) then r
      else y :: remove_first x r
  end.

Definition pq_put (x : Entry) (q : list Entry) : list Entry := q ++ [x].

Definition pq_get (q : list Entry) : option (Entry * list Entry) :=
  match q with
  | [] => None
  | x :: r => let m := least x r in Some (m, remove_first m q)
  end.

(** The attributes of [AudioFeedback] the scheduling depends on, and
    [spoken]: the texts handed to [_play_text] so far, oldest first. *)
Record Audio := mkAudio {
  audio_queue : list Entry;
  is_playing : bool;
  current_priority : option Z;
  spoken : list string
}.

Definition init : Audio := mkAudio [] false None [].

Definition _clear_queue (a : Audio) : Audio :=
  mkAudio [] (is_playing a) (current_priority a) (spoken a).

(** [speak].  [_stop_current] only calls into the TTS engine. *)
Definition speak (text : string) (priority : Z) (interrupt : bool)
    (a : Audio) : Audio :=
  let interrupt := if priority =? Config.PRIORITY_EMERGENCY then true
                   else interrupt in
  let a := if interrupt && is_playing a then _clear_queue a else a in
  mkAudio (pq_put (priority, text) (audio_queue a))
          (is_playing a) (current_priority a) (spoken a).

Definition speak_emergency (text : string) : Audio -> Audio :=
  speak text Config.PRIORITY_EMERGENCY true.
Definition speak_social (text : string) : Audio -> Audio :=
  speak text Config.PRIORITY_SOCIAL false.
Definition speak_navigational (text : string) : Audio -> Audio :=
  speak text Config.PRIORITY_NAVIGATIONAL false.
Definition speak_status (text : string) : Audio -> Audio :=
  speak text Config.PRIORITY_STATUS false.

(** [_playback_worker], one turn of its loop in two halves: the worker
    takes the next entry and starts to play it, and later comes back from
    [_play_text].  With an empty queue [get] times out and the loop
    continues. *)
Definition worker_take (a : Audio) : Audio :=
  match pq_get (audio_queue a) with
  | None => a
  | Some ((priority, text), rest) =>
      mkAudio rest true (Some priority) (spoken a ++ [text])
  end.

Definition worker_done (a : Audio) : Audio :=
  mkAudio (audio_queue a) false None (spoken a).

(** The worker left alone for [n] turns. *)
Fixpoint worker_run (n : nat) (a : Audio) : Audio :=
  match n with
  | O => a
  | S n => worker_run n (worker_done (worker_take a))
  end.

(** The entries in the order the worker takes them out. *)
Fixpoint drain (n : nat) (q : list Entry) : list Entry :=
  match n with
  | O => []
  | S n =>
      match pq_get q with
      | None => []
      | Some (m, rest) => m :: drain n rest
      end
  end.

End AudioFeedback.

(** ** navigation_engine.py *)

Module NavigationEngine.

(** A step of the route dictionary; [end_location] is [(lat, lng)]. *)
Record Transit := mkTransit {
  tr_line : string; tr_vehicle : string; tr_departure_stop : string
}.

Record RouteStep := mkStep {
  instruction : string;
  end_location : Q * Q;
  transit : option Transit
}.

Record Route := mkRoute {
  steps : list RouteStep;
  total_distance : string;
  total_duration : string
}.

(** The navigator the engine is constructed with ([self.maps]), through
    the two methods [update] calls.  [advance_step] gives the new navigator
    and the truth value of what the call returned. *)
Class Navigator (M : Type) := {
  get_current_instruction : M -> option string;
  advance_step : M -> M * bool
}.

(** [_haversine_distance lat1 lon1 lat2 lon2], in metres.  Its body is
    floating-point trigonometry; the engine only compares its value. *)
Class Geodesy := {
  _haversine_distance : Q -> Q -> Q -> Q -> Q
}.

Record Engine := mkEngine {
  announcement_distance : Q;
  reroute_distance : Q;
  arrival_distance : Q;
  active_route : option Route;
  current_step : nat;
  last_announcement : option nat;
  navigation_active : bool
}.

(** The dictionary [update] returns, by its ['status']. *)
Inductive Status :=
| Inactive
| NoGps (message : string)
| Arrived (message : string) (distance_to_destination : Q)
| OffRoute (message : string) (deviation : Q)
| NoInstruction
| Navigating (instr : string) (distance_to_waypoint : Q)
    (step_number total_steps : nat) (announce : bool).

Section Engine.
Context {G : Geodesy} {M : Type} {N : Navigator M}.

(** [steps[self.current_step]] raises [IndexError] out of range: [None]. *)
Definition _calculate_distance_to_waypoint (r : Route) (e : Engine)
    (current_pos : Q * Q) : option Q :=
  match nth_error (steps r) (current_step e) with
  | Some step =>
      Some (_haversine_distance (fst current_pos) (snd current_pos)
              (fst (end_location step)) (snd (end_location step)))
  | None => None
  end.

(** [steps[-1]] raises [IndexError] on an empty list: [None]. *)
Definition _calculate_distance_to_destination (r : Route)
    (current_pos : Q * Q) : option Q :=
  match List.rev (steps r) with
  | final_step :: _ =>
      Some (_haversine_distance (fst current_pos) (snd current_pos)
              (fst (end_location final_step)) (snd (end_location final_step)))
  | [] => None
  end.

Definition _is_arrived (r : Route) (e : Engine) (current_pos : Q * Q)
    : option bool :=
  match _calculate_distance_to_destination r current_pos with
  | Some distance => Some (Qlt_bool distance (arrival_distance e))
  | None => None
  end.

Definition _calculate_deviation := _calculate_distance_to_waypoint.

Definition _is_off_route (r : Route) (e : Engine) (current_pos : Q * Q)
    : option bool :=
  match _calculate_deviation r e current_pos with
  | Some deviation => Some (Qlt_bool (reroute_distance e) deviation)
  | None => None
  end.

Definition set_last_announcement (v : option nat) (e : Engine) : Engine :=
  mkEngine (announcement_distance e) (reroute_distance e)
    (arrival_distance e) (active_route e) (current_step e) v
    (navigation_active e).

Definition set_navigation_active (b : bool) (e : Engine) : Engine :=
  mkEngine (announcement_distance e) (reroute_distance e)
    (arrival_distance e) (active_route e) (current_step e)
    (last_announcement e) b.

Definition set_current_step (n : nat) (e : Engine) : Engine :=
  mkEngine (announcement_distance e) (reroute_distance e)
    (arrival_distance e) (active_route e) n (last_announcement e)
    (navigation_active e).

(** [self.last_announcement != self.current_step]; [None != 0] holds. *)
Definition announced_here (e : Engine) : bool :=
  match last_announcement e with
  | Some s => Nat.eqb s (current_step e)
  | None => false
  end.

Definition _should_announce (distance_to_waypoint : Q) (e : Engine)
    : bool * Engine :=
  if Qle_bool distance_to_waypoint (announcement_distance e) then
    if negb (announced_here e) then
      (true, set_last_announcement (Some (current_step e)) e)
    else (false, e)
  else (false, e).

(** [update].  [gps] is what [self.gps.get_position()] returns on this
    call.  [None] stands for an uncaught [IndexError]; it can only be
    raised before any attribute is written. *)
Definition update (gps : option (Q * Q)) (e : Engine) (m : M)
    : option (Status * Engine * M) :=
  match navigation_active e, active_route e with
  | true, Some r =>
      match gps with
      | None => Some (NoGps "Waiting for GPS signal", e, m)
      | Some current_pos =>
          match _is_arrived r e current_pos with
          | None => None
          | Some true =>
              match _calculate_distance_to_destination r current_pos with
              | None => None
              | Some d =>
                  Some (Arrived "You have arrived at your destination" d,
                        set_navigation_active false e, m)
              end
          | Some false =>
              match _is_off_route r e current_pos with
              | None => None
              | Some true =>
                  match _calculate_deviation r e current_pos with
                  | None => None
                  | Some dev =>
                      Some (OffRoute "You are off route. Recalculating..." dev,
                            e, m)
                  end
              | Some false =>
                  match get_current_instruction m with
                  | None => Some (NoInstruction, e, m)
                  | Some instruction =>
                      match _calculate_distance_to_waypoint r e current_pos
                      with
                      | None => None
                      | Some distance_to_waypoint =>
                          let '(should_announce, e1) :=
                            _should_announce distance_to_waypoint e in
                          let result :=
                            Navigating instruction distance_to_waypoint
                              (current_step e1 + 1) (length (steps r))
                              should_announce in
                          if Qlt_bool distance_to_waypoint 10 then
                            let '(m1, advanced) := advance_step m in
                            if advanced then
                              Some (result,
                                    set_last_announcement None
                                      (set_current_step (current_step e1 + 1)
                                         e1),
                                    m1)
                            else Some (result, e1, m1)
                          else Some (result, e1, m)
                      end
                  end
              end
          end
      end
  | _, _ => Some (Inactive, e, m)
  end.

End Engine.

(** *** google_maps_navigator.py, as far as [update] reaches into it *)

Record GoogleMapsNavigator := mkGoogle {
  current_route : option Route;
  current_step_index : nat
}.

Definition google_get_current_instruction (g : GoogleMapsNavigator)
    : option string :=
  match current_route g with
  | None => None
  | Some r =>
      match nth_error (steps r) (current_step_index g) with
      | None => None
      | Some step =>
          match transit step with
          | Some t =>
              Some ("Take " ++ tr_vehicle t ++ " " ++ tr_line t ++ " from "
                      ++ tr_departure_stop t)%string
          | None => Some (instruction step)
          end
      end
  end.

(** [advance_step] has no [return]: the caller sees [None], which is
    false. *)
Definition google_advance_step (g : GoogleMapsNavigator)
    : GoogleMapsNavigator * bool :=
  match current_route g with
  | Some _ => (mkGoogle (current_route g) (current_step_index g + 1), false)
  | None => (g, false)
  end.

#[export] Instance google_navigator : Navigator GoogleMapsNavigator := {
  get_current_instruction := google_get_current_instruction;
  advance_step := google_advance_step
}.

(** On one meridian ([lon1 = lon2]) the haversine formula is the arc
    [R * |lat2 - lat1|] in radians; [pi] is cut after fourteen decimals.
    Used for worked examples whose positions share a longitude. *)
Definition meridian_distance (lat1 lon1 lat2 lon2 : Q) : Q :=
  (6371000 * (Qabs.Qabs (lat2 - lat1) * (314159265358979 # 100000000000000)
              / 180))%Q.

Definition meridian_geodesy : Geodesy :=
  {| _haversine_distance := meridian_distance |}.

End NavigationEngine.

(** ** Python list and string helpers *)

(** [list.sort(key=...)] is stable: an entry is put in front of the first
    entry that does not sort before it, starting from the back. *)
Fixpoint insert_by {A} (leb : A -> A -> bool) (x : A) (l : list A) : list A :=
  match l with
  | [] => [x]
  | y :: r => if leb x y then x :: y :: r else y :: insert_by leb x r
  end.

Definition sort_by {A} (leb : A -> A -> bool) (l : list A) : list A :=
  List.fold_right (insert_by leb) [] l.

(** [str.lower] and [str.capitalize] on ASCII letters. *)
Definition lower_ascii (c : ascii) : ascii :=
  let n := N_of_ascii c in
  if ((65 <=? n) && (n <=? 90))%N then ascii_of_N (n + 32) else c.

Definition upper_ascii (c : ascii) : ascii :=
  let n := N_of_ascii c in
  if ((97 <=? n) && (n <=? 122))%N then ascii_of_N (n - 32) else c.

Fixpoint lower (s : string) : string :=
  match s with
  | EmptyString => EmptyString
  | String c r => String (lower_ascii c) (lower r)
  end.

Definition capitalize (s : string) : string :=
  match s with
  | EmptyString => EmptyString
  | String c r => String (upper_ascii c) (lower r)
  end.

(** ** spatial_navigator.py *)

Module SpatialNavigator.

(** The frame sizes are positive pixel counts (a division by a zero
    frame size raises in Python). *)
Record Navigator := mkNavigator {
  frame_width : Z;
  frame_height : Z;
  distance_threshold : Q
}.

Definition zone_width (n : Navigator) : Q := (inject_Z (frame_width n) / 3)%Q.
Definition zone_height (n : Navigator) : Q := (inject_Z (frame_height n) / 3)%Q.

Definition ZONE_PRIORITY : list (string * Z) :=
  [("bottom-left", 1); ("bottom", 1); ("bottom-right", 1);
   ("left", 2); ("center", 2); ("right", 2);
   ("top-left", 3); ("top", 3); ("top-right", 3)]%string.

Definition OBSTACLE_CLASSES : list string :=
  ["person"; "chair"; "couch"; "bicycle"; "car"; "motorcycle";
   "bus"; "truck"; "bench"; "potted plant"; "dog"; "cat"]%string.

(** [d.get(key, default)] on a literal dictionary. *)
Fixpoint dict_get {V} (d : list (string * V)) (key : string) (default : V) : V :=
  match d with
  | [] => default
  | (k, v) :: r => if String.eqb k key then v else dict_get r key default
  end.

Definition zone_map (row col : nat) : string :=
  match row, col with
  | 0, 0 => "top-left" | 0, 1 => "top" | 0, 2 => "top-right"
  | 1, 0 => "left" | 1, 1 => "center" | 1, 2 => "right"
  | 2, 0 => "bottom-left" | 2, 1 => "bottom" | 2, 2 => "bottom-right"
  | _, _ => "center"
  end%nat%string.

Definition get_object_zone (n : Navigator) (b : BBox) : string :=
  let center_x := (inject_Z (bx1 b + bx2 b) / 2)%Q in
  let center_y := (inject_Z (by1 b + by2 b) / 2)%Q in
  let col :=
    if Qlt_bool center_x (zone_width n) then 0%nat
    else if Qlt_bool center_x (2 * zone_width n) then 1%nat
    else 2%nat in
  let row :=
    if Qlt_bool center_y (zone_height n) then 0%nat
    else if Qlt_bool center_y (2 * zone_height n) then 1%nat
    else 2%nat in
  zone_map row col.

Definition estimate_distance (n : Navigator) (b : BBox) : string :=
  let bbox_area := (bx2 b - bx1 b) * (by2 b - by1 b) in
  let frame_area := frame_width n * frame_height n in
  let area_ratio := (inject_Z bbox_area / inject_Z frame_area)%Q in
  if Qlt_bool (35 # 100) area_ratio then "very-close"
  else if Qlt_bool (15 # 100) area_ratio then "close"
  else if Qlt_bool (5 # 100) area_ratio then "medium"
  else "far".

Definition is_obstacle (cls : string) : bool :=
  str_in (lower cls) (List.map lower OBSTACLE_CLASSES).

(** [None] is the "blocked, stop" answer. *)
Definition get_clear_direction (occupied_zones : list string)
    : option string :=
  let bottom_zones := ["bottom-left"; "bottom"; "bottom-right"]%string in
  let occupied_bottom :=
    List.filter (fun z => str_in z bottom_zones) occupied_zones in
  match occupied_bottom with
  | [] => Some "straight"%string
  | _ =>
      let left_blocked :=
        str_in "bottom-left" occupied_bottom || str_in "left" occupied_zones in
      let right_blocked :=
        str_in "bottom-right" occupied_bottom
        || str_in "right" occupied_zones in
      let center_blocked := str_in "bottom" occupied_bottom in
      if center_blocked && negb left_blocked && negb right_blocked then
        if negb (str_in "left" occupied_zones) then Some "left"
        else if negb (str_in "right" occupied_zones) then Some "right"
        else Some "straight"
      else if negb left_blocked && negb center_blocked then Some "left"
      else if negb right_blocked && negb center_blocked then Some "right"
      else if negb left_blocked then Some "left"
      else if negb right_blocked then Some "right"
      else None
  end%string.

Definition zone_speech : list (string * string) :=
  [("top-left", "above left"); ("top", "above"); ("top-right", "above right");
   ("left", "left"); ("center", "ahead"); ("right", "right");
   ("bottom-left", "bottom left"); ("bottom", "bottom");
   ("bottom-right", "bottom right")]%string.

Definition distance_speech : list (string * string) :=
  [("very-close", ""); ("close", "close"); ("medium", ""); ("far", "")]%string.

Definition _create_guidance_message (cls zone distance : string) : string :=
  let zone_desc := dict_get zone_speech zone zone in
  let dist_desc := dict_get distance_speech distance ""%string in
  if String.eqb distance "very-close" then
    (capitalize cls ++ " " ++ zone_desc)%string
  else if negb (String.eqb dist_desc "") then
    (capitalize cls ++ " " ++ dist_desc ++ " " ++ zone_desc)%string
  else (capitalize cls ++ " " ++ zone_desc)%string.

(** One dictionary of the returned [guidance_list]. *)
Record Guidance := mkGuidance {
  g_message : string;
  g_priority : Z;
  g_zone : string;
  g_distance : string;
  g_class_name : string;
  g_bbox : option BBox
}.

(** One turn of the [for det in detections] loop, on the pair
    [(guidance_list, occupied_zones)]. *)
Definition guide_one (n : Navigator) (acc : list Guidance * list string)
    (det : Detection) : list Guidance * list string :=
  let '(guidance_list, occupied_zones) := acc in
  if negb (is_obstacle (class_name det)) then acc
  else
    let zone := get_object_zone n (bbox det) in
    let distance := estimate_distance n (bbox det) in
    let priority := dict_get ZONE_PRIORITY zone 3 in
    let message := _create_guidance_message (class_name det) zone distance in
    let priority :=
      if String.eqb distance "very-close" then 1
      else if String.eqb distance "close" && (priority =? 2) then 1
      else priority in
    (guidance_list ++
       [mkGuidance message priority zone distance (class_name det)
                   (Some (bbox det))],
     occupied_zones ++ [zone]).

Definition by_priority (a b : Guidance) : bool := g_priority a <=? g_priority b.

Definition generate_guidance (n : Navigator) (detections : list Detection)
    : list Guidance :=
  let '(guidance_list, occupied_zones) :=
    List.fold_left (guide_one n) detections ([], []) in
  let guidance_list :=
    match occupied_zones with
    | [] => guidance_list
    | _ =>
        match get_clear_direction occupied_zones with
        | Some clear_direction =>
            guidance_list ++
              [mkGuidance ("Move " ++ clear_direction)%string 1
                          "navigation"%string "immediate"%string
                          "navigation"%string None]
        | None =>
            guidance_list ++
              [mkGuidance "Path blocked, stop"%string 1 "navigation"%string
                          "immediate"%string "emergency"%string None]
        end
    end in
  sort_by by_priority guidance_list.

End SpatialNavigator.

(** ** obstacle_fusion.py *)

Module ObstacleFusion.

(** [f"{distance:.1f}"]: the decimal rendering of a float. *)
Class FloatFormat := { format_1f : Q -> string }.

Record Fusion := mkFusion {
  frame_width : Z;
  frame_height : Z;
  sensor_fov : Q;
  camera_fov : Q
}.

Definition init (w h : Z) : Fusion := mkFusion w h 15 60.

(** A detection with the two entries [get_object_with_distance] adds. *)
Record Enhanced := mkEnhanced {
  e_det : Detection;
  precise_distance : Q;
  distance_source : string
}.

Definition _is_in_sensor_view (f : Fusion) (b : BBox) : bool :=
  let obj_center_x := (inject_Z (bx1 b + bx2 b) / 2)%Q in
  let frame_center_x := (inject_Z (frame_width f) / 2)%Q in
  let pixel_offset_x := Qabs.Qabs (obj_center_x - frame_center_x) in
  let angle_offset :=
    ((pixel_offset_x / inject_Z (frame_width f)) * camera_fov f)%Q in
  Qlt_bool angle_offset (sensor_fov f / 2).

Definition _estimate_from_bbox (f : Fusion) (b : BBox) : Q :=
  let bbox_area := (bx2 b - bx1 b) * (by2 b - by1 b) in
  let frame_area := frame_width f * frame_height f in
  let area_ratio := (inject_Z bbox_area / inject_Z frame_area)%Q in
  if Qlt_bool (35 # 100) area_ratio then (1 # 2)%Q
  else if Qlt_bool (15 # 100) area_ratio then 1%Q
  else if Qlt_bool (5 # 100) area_ratio then 2%Q
  else 4%Q.

(** [if ultrasonic_distance:] is false for [None] and for [0.0]. *)
Definition truthy_reading (r : option Q) : option Q :=
  match r with
  | Some d => if Qeq_bool d 0 then None else Some d
  | None => None
  end.

(** [ultrasonic] is what [self.ultrasonic_sensor.get_distance()] returns,
    in centimetres. *)
Definition get_object_with_distance (f : Fusion) (ultrasonic : option Q)
    (objects : list Detection) : list Enhanced :=
  List.map
    (fun obj =>
       if _is_in_sensor_view f (bbox obj) then
         match truthy_reading ultrasonic with
         | Some d => mkEnhanced obj (d / 100)%Q "ultrasonic"
         | None =>
             mkEnhanced obj (_estimate_from_bbox f (bbox obj))
                        "camera_estimate"
         end
       else
         mkEnhanced obj (_estimate_from_bbox f (bbox obj)) "camera_estimate")
    objects.

Definition obstacle_classes : list string :=
  ["person"; "chair"; "couch"; "car"; "bicycle"; "motorcycle"; "bus";
   "truck"]%string.

Definition by_distance (a b : Enhanced) : bool :=
  Qle_bool (precise_distance a) (precise_distance b).

Definition get_critical_obstacles (f : Fusion) (ultrasonic : option Q)
    (objects : list Detection) (distance_threshold : Q) : list Enhanced :=
  let enhanced := get_object_with_distance f ultrasonic objects in
  let critical :=
    List.filter
      (fun obj =>
         str_in (class_name (e_det obj)) obstacle_classes
         && Qlt_bool (precise_distance obj) distance_threshold)
      enhanced in
  sort_by by_distance critical.

Record Warning := mkWarning {
  w_message : string;
  w_priority : Z;
  w_distance : Q;
  w_object : string;
  w_position : string;
  w_accuracy : string
}.

Section Warnings.
Context {FF : FloatFormat}.

Definition warn_one (f : Fusion) (obj : Enhanced) : Warning :=
  let distance := precise_distance obj in
  let cls := class_name (e_det obj) in
  let center_x :=
    (inject_Z (bx1 (bbox (e_det obj)) + bx2 (bbox (e_det obj))) / 2)%Q in
  let position :=
    (if Qlt_bool center_x (inject_Z (frame_width f) / 3) then "left"
     else if Qlt_bool (2 * inject_Z (frame_width f) / 3) center_x
     then "right"
     else "ahead")%string in
  let tail :=
    (capitalize cls ++ " " ++ format_1f distance ++ "m " ++ position)%string
  in
  let '(priority, message) :=
    if Qlt_bool distance (1 # 2) then (1, ("STOP! " ++ tail)%string)
    else if Qlt_bool distance 1 then (2, ("Caution: " ++ tail)%string)
    else (3, tail) in
  let accuracy :=
    (if String.eqb (distance_source obj) "ultrasonic" then "measured"
     else "estimated")%string in
  mkWarning message priority distance cls position accuracy.

Definition generate_obstacle_warnings (f : Fusion) (ultrasonic : option Q)
    (objects : list Detection) : list Warning :=
  let critical := get_critical_obstacles f ultrasonic objects (3 # 2) in
  List.map (warn_one f) (List.firstn 3 critical).

End Warnings.

End ObstacleFusion.

(** ** visual_matcher.py *)

Module VisualMatcher.
Import Database.

(** What the matcher gets from OpenCV, NumPy and the embedding network.
    An [Image] is a frame; the methods below are the calls the matcher
    makes on it and on the numbers extracted from it.
    - [extract_embedding]: [DeepFeatureExtractor.extract_embedding(...)
      .tolist()];
    - [detect_and_compute]: the rest of [extract_features] (crop,
      [detectAndCompute], histogram), returning the feature dictionary;
    - [mean_unit]: [np.mean(embeddings, axis=0)] divided by its norm;
    - [mean_hist]: the histogram average over the given number of frames;
    - [knn_confidence]: the ratio test and histogram correlation of
      [match_features], reached when both sides carry at least two
      descriptors. *)
Class Backend (Image : Type) := {
  extract_embedding : Image -> BBox -> list Q;
  detect_and_compute : Image -> BBox -> KeypointData;
  mean_unit : list (list Q) -> list Q;
  mean_hist : nat -> list Q -> list Q;
  knn_confidence : KeypointData -> KeypointData -> Q * nat
}.

Record Matcher := mkMatcher {
  feature_type : string;
  match_threshold : Q;
  use_deep_features : bool
}.

(** The dictionary returned when nothing could be extracted. *)
Definition no_features : Features :=
  KeypointFeatures (mkKeypoints [] [] [] None []) None.

(** [features.get('deep_embedding')] as a truth value. *)
Definition has_embedding (f : Features) : bool :=
  match f with
  | DeepFeatures (_ :: _) _ _ => true
  | _ => false
  end.

(** [features.get('descriptors')], which is [None] for a dictionary
    without that key. *)
Definition get_descriptors (f : Features) : option (list (list Z)) :=
  match f with
  | KeypointFeatures k _ => descriptors k
  | DeepFeatures _ _ _ => None
  end.

(** The same entry as a truth value: neither [None] nor empty. *)
Definition has_descriptors (f : Features) : bool :=
  match get_descriptors f with
  | Some (_ :: _) => true
  | _ => false
  end.

Definition is_deep (f : Features) : bool :=
  match f with DeepFeatures _ _ _ => true | _ => false end.

Fixpoint dot (u v : list Q) : Q :=
  match u, v with
  | x :: u, y :: v => (x * y + dot u v)%Q
  | _, _ => 0%Q
  end.

(** [np.clip(x, 0, 1)]. *)
Definition clip01 (x : Q) : Q := Qmin (Qmax x 0) 1.

Section Matcher.
Context {Image : Type} {B : Backend Image}.

Definition extract_features (m : Matcher) (image : Image) (b : BBox)
    : Features :=
  if use_deep_features m then
    let embedding := extract_embedding image b in
    DeepFeatures embedding (length embedding) None
  else KeypointFeatures (detect_and_compute image b) None.

Definition keypoint_data (f : Features) : KeypointData :=
  match f with
  | KeypointFeatures k _ => k
  | DeepFeatures _ _ _ => mkKeypoints [] [] [] None []
  end.

Definition embedding_of (f : Features) : list Q :=
  match f with
  | DeepFeatures e _ _ => e
  | KeypointFeatures _ _ => []
  end.

Definition extract_multi_frame_features (m : Matcher)
    (images : list Image) (bboxes : list BBox) : Features :=
  let all_features :=
    List.filter
      (fun f =>
         if use_deep_features m then has_embedding f
         else match get_descriptors f with Some _ => true | None => false end)
      (List.map (fun ib => extract_features m (fst ib) (snd ib))
                (List.combine images bboxes)) in
  match all_features with
  | [] => no_features
  | first :: _ =>
      if use_deep_features m && is_deep first then
        let avg_embedding := mean_unit (List.map embedding_of all_features) in
        DeepFeatures avg_embedding (length avg_embedding)
                     (Some (length all_features))
      else
        let ks := List.map keypoint_data all_features in
        let descs :=
          List.flat_map
            (fun k => match descriptors k with Some d => d | None => [] end)
            ks in
        match descs with
        | [] => no_features
        | _ =>
            let hist := List.flat_map color_hist ks in
            let hist :=
              match hist with
              | [] => hist
              | _ => mean_hist (length all_features) hist
              end in
            KeypointFeatures
              (mkKeypoints (List.flat_map keypoints ks)
                 (List.flat_map keypoint_sizes ks)
                 (List.flat_map keypoint_angles ks)
                 (Some descs) hist)
              (Some (length all_features))
        end
  end.

Definition match_features (query_features reference_features : Features)
    : Q * nat :=
  match query_features, reference_features with
  | DeepFeatures query_emb _ _, DeepFeatures ref_emb _ _ =>
      (clip01 (dot query_emb ref_emb), 1%nat)
  | _, _ =>
      match get_descriptors query_features,
            get_descriptors reference_features with
      | Some query_desc, Some ref_desc =>
          if (length query_desc <? 2)%nat || (length ref_desc <? 2)%nat
          then (0%Q, 0%nat)
          else knn_confidence (keypoint_data query_features)
                              (keypoint_data reference_features)
      | _, _ => (0%Q, 0%nat)
      end
  end.

(** The three [best_*] variables of [find_best_match]. *)
Record Best := mkBest {
  best_confidence : Q;
  best_id : option Z;
  best_name : option string
}.

Definition consider (m : Matcher) (query_features : Features) (b : Best)
    (candidate : Z * string * Features) : Best :=
  let '(obj_id, custom_name, ref_features) := candidate in
  let confidence := fst (match_features query_features ref_features) in
  if Qlt_bool (best_confidence b) confidence
     && Qle_bool (match_threshold m) confidence
  then mkBest confidence (Some obj_id) (Some custom_name)
  else b.

Definition find_best_match (m : Matcher) (query_features : Features)
    (candidates : list (Z * string * Features))
    : option (Z * string * Q) :=
  match candidates with
  | [] => None
  | _ =>
      let b := List.fold_left (consider m query_features) candidates
                 (mkBest 0 None None) in
      match best_id b, best_name b with
      | Some i, Some n => Some (i, n, best_confidence b)
      | _, _ => None
      end
  end.

End Matcher.

End VisualMatcher.

(** ** object_memory.py *)

Module ObjectMemory.
Import Database VisualMatcher.

Section Memory.
Context {Image : Type} {B : Backend Image}.

Record Buffer := mkBuffer {
  images : list Image;
  bboxes : list BBox;
  yolo_class : option string;
  custom_name : option string
}.

Definition empty_buffer : Buffer := mkBuffer [] [] None None.

Record Memory := mkMemory {
  db : VisionMateDB;
  matcher : Matcher;
  enrollment_buffer : Buffer
}.

(** [start_enrollment] raises [ValueError] for a name already enrolled:
    [None]. *)
Definition start_enrollment (name cls : string) (om : Memory)
    : option Memory :=
  match get_remembered_object name (db om) with
  | Some _ => None
  | None =>
      Some (mkMemory (db om) (matcher om) (mkBuffer [] [] (Some cls) (Some name)))
  end.

(** [add_enrollment_frame] raises [ValueError] before [start_enrollment]:
    [None]. *)
Definition add_enrollment_frame (image : Image) (b : BBox) (om : Memory)
    : option (nat * Memory) :=
  match custom_name (enrollment_buffer om) with
  | None => None
  | Some _ =>
      let buf := enrollment_buffer om in
      let buf' := mkBuffer (images buf ++ [image]) (bboxes buf ++ [b])
                           (yolo_class buf) (custom_name buf) in
      Some (length (images buf'), mkMemory (db om) (matcher om) buf')
  end.

(** The validation both [finish_enrollment] and [recognize_object] apply
    to a feature dictionary. *)
Definition valid_features (f : Features) : bool :=
  if is_deep f then has_embedding f else has_descriptors f.

(** [finish_enrollment] returns a truth value after logging one line;
    the line logged at error level is returned with it ([None] on
    success).  A buffer whose class is missing makes the [INSERT] fail
    on [NOT NULL], which [add_remembered_object] reports as [-1]. *)
Definition finish_enrollment (om : Memory)
    : bool * option string * Memory :=
  let buf := enrollment_buffer om in
  match custom_name buf with
  | None => (false, Some "No enrollment in progress"%string, om)
  | Some name =>
      if (length (images buf) <? 1)%nat then
        (false, Some "Need at least 1 frame to enroll"%string, om)
      else
        let features :=
          extract_multi_frame_features (matcher om) (images buf) (bboxes buf)
        in
        if negb (valid_features features) then
          (false,
           Some (if is_deep features
                 then "Failed to extract valid deep features"
                 else "Failed to extract valid features")%string,
           om)
        else
          let '(obj_id, db') :=
            match yolo_class buf with
            | Some cls =>
                add_remembered_object name cls features
                  (length (images buf)) (db om)
            | None => (-1, db om)
            end in
          if 0 <? obj_id then
            (true, None, mkMemory db' (matcher om) empty_buffer)
          else
            (false, Some "Failed to save object to database"%string,
             mkMemory db' (matcher om) buf)
  end.

Definition cancel_enrollment (om : Memory) : Memory :=
  mkMemory (db om) (matcher om) empty_buffer.

Definition recognize_object (image : Image) (b : BBox) (cls : string)
    (om : Memory) : option (string * Q) :=
  let candidates := get_remembered_objects_by_class cls (db om) in
  match candidates with
  | [] => None
  | _ =>
      let query_features := extract_features (matcher om) image b in
      if negb (valid_features query_features) then None
      else
        match find_best_match (matcher om) query_features candidates with
        | Some (obj_id, name, confidence) => Some (name, confidence)
        | None => None
        end
  end.

End Memory.

(** A backend for worked examples: a frame is given by what the network
    and the detector read off it.  The examples stop before any
    aggregation or keypoint matching, so those three entries are never
    consulted. *)
Record ExampleImage := mkImage {
  img_embedding : list Q;
  img_keypoints : KeypointData
}.

Definition example_backend : Backend ExampleImage := {|
  extract_embedding := fun i _ => img_embedding i;
  detect_and_compute := fun i _ => img_keypoints i;
  mean_unit := fun es => match es with e :: _ => e | [] => [] end;
  mean_hist := fun _ h => h;
  knn_confidence := fun _ _ => (0%Q, 0%nat)
|}.

End ObjectMemory.

(** * Vocabulary of the statements *)

Module Props.
Import ItemTracker.

(** A box whose corners are in order. *)
Definition valid_box (b : BBox) : Prop := bx1 b <= bx2 b /\ by1 b <= by2 b.

Definition area (b : BBox) : Z := (bx2 b - bx1 b) * (by2 b - by1 b).

(** The area two boxes share, and the area they cover. *)
Definition intersection_area (a b : BBox) : Z :=
  Z.max 0 (Z.min (bx2 a) (bx2 b) - Z.max (bx1 a) (bx1 b))
  * Z.max 0 (Z.min (by2 a) (by2 b) - Z.max (by1 a) (by1 b)).

Definition union_area (a b : BBox) : Z :=
  area a + area b - intersection_area a b.

Definition non_overlapping (a b : BBox) : Prop := intersection_area a b = 0.

(** The pair keys whose containment test succeeds on a frame. *)
Definition frame_pairs (t : Tracker) (detections : list Detection)
    : list PairKey :=
  inside_pairs (iou_threshold t)
    (List.filter (fun d => str_in (class_name d) item_classes) detections)
    (List.filter (fun d => str_in (class_name d) container_classes)
                 detections).




(** The datastore writes a list of events stands for. *)
Definition replay (evs : list Confirmed) (d : Database.VisionMateDB)
    : Database.VisionMateDB :=
  List.fold_left
    (fun d ev => Database.update_item_location (c_item ev) (c_location ev) d)
    evs d.

(** Successive calls of [update_tracking], one per frame; a frame is the
    clock reading with the detections.  The results are kept per call. *)
Fixpoint run (frames : list (Q * list Detection)) (t : Tracker)
    : list (list Confirmed) * Tracker :=
  match frames with
  | [] => ([], t)
  | (now, detections) :: rest =>
      let '(evs, t1) := update_tracking now detections t in
      let '(out, t2) := run rest t1 in
      (evs :: out, t2)
  end.




(** The event that confirms pair [p] at time [now]. *)
Definition confirmation (p : PairKey) (now : Q) : Confirmed :=
  mkConfirmed (fst p) (snd p) now.


(** Entry [a] does not sort after entry [b] in the queue: lower priority
    number first, then the smaller text. *)
Definition entry_le (a b : AudioFeedback.Entry) : Prop :=
  AudioFeedback.entry_ltb b a = false.

(** Successive calls of [NavigationEngine.update], one per GPS reading;
    [None] when a call raises. *)
Fixpoint updates {G : NavigationEngine.Geodesy} {M : Type}
    {N : NavigationEngine.Navigator M}
    (fixes : list (option (Q * Q))) (e : NavigationEngine.Engine) (m : M)
    : option (list NavigationEngine.Status * NavigationEngine.Engine * M) :=
  match fixes with
  | [] => Some ([], e, m)
  | gps :: rest =>
      match NavigationEngine.update gps e m with
      | None => None
      | Some (status, e1, m1) =>
          match updates rest e1 m1 with
          | None => None
          | Some (out, e2, m2) => Some (status :: out, e2, m2)
          end
      end
  end.


Definition visits (now tmo : Q) (ks : list PairKey) (acc : Loop) : Loop :=
  List.fold_left (fun acc k => visit now tmo k acc) ks acc.




Definition is_arrived_status (s : NavigationEngine.Status) : bool :=
  match s with NavigationEngine.Arrived _ _ => true | _ => false end.



(** The zones [generate_guidance] has collected when its loop ends. *)
Definition occupied_zones (n : SpatialNavigator.Navigator)
    (detections : list Detection) : list string :=
  snd (List.fold_left (SpatialNavigator.guide_one n) detections ([], [])).


Section MatchingVocabulary.
Import Database VisualMatcher.
Context {Image : Type} {B : Backend Image}.

(** The confidence [find_best_match] computes for a candidate. *)
Definition conf (q : Features) (x : Z * string * Features) : Q :=
  fst (match_features q (snd x)).

(** A candidate that [find_best_match] may select at all. *)
Definition qualifies (m : Matcher) (q : Features) (x : Z * string * Features)
    : Prop :=
  (0 < conf q x)%Q /\ (match_threshold m <= conf q x)%Q.

(** The [best_*] variables after the loop has gone through [l]. *)
Definition considered (m : Matcher) (q : Features)
    (l : list (Z * string * Features)) (b : Best) : Best :=
  List.fold_left (consider m q) l b.

(** What the scan holds after any prefix: nothing yet, or a candidate of
    the prefix that qualifies; and no candidate of the prefix at or above
    the threshold has a greater confidence. *)
Definition scan_ok (m : Matcher) (q : Features)
    (l : list (Z * string * Features)) (b : Best) : Prop :=
  ((best_id b = None /\ best_name b = None /\ best_confidence b = 0%Q) \/
   (exists i n f, In (i, n, f) l /\
      b = mkBest (conf q (i, n, f)) (Some i) (Some n) /\
      qualifies m q (i, n, f))) /\
  Forall (fun x => (match_threshold m <= conf q x)%Q ->
                   (conf q x <= best_confidence b)%Q) l.

End MatchingVocabulary.

End Props.

(** * Worked inputs *)

Module Scenarios.
Import Database ItemTracker.

(** Boxes for the IoU properties: two overlapping squares and a box of
    no area. *)
Definition square_a : BBox := mkBBox 100 100 200 200.
Definition square_b : BBox := mkBBox 150 150 250 250.
Definition point_box : BBox := mkBBox 5 5 5 5.

(** Keys lying on a chair, seen every half second from 0s to 3.5s. *)
Definition keys : Detection := mkDetection "keys" (mkBBox 120 120 180 180) (9 # 10).
Definition chair : Detection := mkDetection "chair" (mkBBox 100 100 300 300) (95 # 100).
Definition keys_on_chair : PairKey := ("keys", "chair")%string.

Definition frame_at (half_seconds : Z) : Q * list Detection :=
  ((half_seconds # 2)%Q, [keys; chair]).

Definition keys_frames : list (Q * list Detection) :=
  List.map frame_at [0; 1; 2; 3; 4; 5; 6; 7].

(** Two navigational messages enqueued while a third is being played,
    the later one with the smaller text; then the worker plays on. *)
Definition two_equal_priority : AudioFeedback.Audio :=
  AudioFeedback.worker_run 2
    (AudioFeedback.worker_done
       (AudioFeedback.speak_navigational "a"
          (AudioFeedback.speak_navigational "b"
             (AudioFeedback.worker_take
                (AudioFeedback.speak_navigational "x" AudioFeedback.init))))).

(** Status, then Navigational, then Emergency with [interrupt=True],
    enqueued while nothing is playing; then the worker plays three
    messages. *)
Definition three_priorities : AudioFeedback.Audio :=
  AudioFeedback.worker_run 3
    (AudioFeedback.speak "emergency" Config.PRIORITY_EMERGENCY true
       (AudioFeedback.speak "navigational" Config.PRIORITY_NAVIGATIONAL false
          (AudioFeedback.speak "status" Config.PRIORITY_STATUS false
             AudioFeedback.init))).

(** The same three calls, the first message already being played when
    the other two arrive. *)
Definition three_priorities_playing : AudioFeedback.Audio :=
  AudioFeedback.worker_run 3
    (AudioFeedback.worker_done
       (AudioFeedback.speak "emergency" Config.PRIORITY_EMERGENCY true
          (AudioFeedback.speak "navigational" Config.PRIORITY_NAVIGATIONAL
             false
             (AudioFeedback.worker_take
                (AudioFeedback.speak "status" Config.PRIORITY_STATUS false
                   AudioFeedback.init))))).

(** A two-step walk north along the meridian of Greenwich: the first
    step ends at the equator, the second about 1.1 km further north. *)
Definition walk : NavigationEngine.Route :=
  NavigationEngine.mkRoute
    [NavigationEngine.mkStep "Head north" (0, 0)%Q None;
     NavigationEngine.mkStep "Turn left" (1 # 100, 0)%Q None]
    "1.1 km" "14 min".

Definition walk_maps : NavigationEngine.GoogleMapsNavigator :=
  NavigationEngine.mkGoogle (Some walk) 0.

(** The engine as [config.py] sets it up (50 m, 30 m, 20 m), on [walk]. *)
Definition walking : NavigationEngine.Engine :=
  NavigationEngine.mkEngine
    Config.NAVIGATION_ANNOUNCEMENT_DISTANCE Config.NAVIGATION_REROUTE_DISTANCE
    Config.NAVIGATION_ARRIVAL_DISTANCE (Some walk) 0 None true.

(** The same engine constructed with [arrival_distance=0.0]. *)
Definition walking_exact : NavigationEngine.Engine :=
  NavigationEngine.mkEngine
    Config.NAVIGATION_ANNOUNCEMENT_DISTANCE Config.NAVIGATION_REROUTE_DISTANCE
    0 (Some walk) 0 None true.

(** GPS readings on that meridian: at the destination; about 1.1 m short
    of it; about 40 m and about 22 m short of the first waypoint. *)
Definition at_destination : Q * Q := (1 # 100, 0)%Q.
Definition near_destination : Q * Q := (999 # 100000, 0)%Q.
Definition twenty_metres_out : Q * Q := (-20 # 100000, 0)%Q.

(** A chair low on the left and a person to the right, in a 640x480
    frame. *)
Definition hallway_navigator : SpatialNavigator.Navigator :=
  SpatialNavigator.mkNavigator 640 480 (3 # 10).

Definition hallway : list Detection :=
  [mkDetection "chair" (mkBBox 50 400 150 470) (9 # 10);
   mkDetection "person" (mkBBox 500 200 600 300) (85 # 100)].

(** Two sets of keys enrolled with the same unit embedding, first the
    house keys and then the car keys, and the memory [ObjectMemory()]
    builds around them: deep features, threshold 0.5. *)
Definition half4 : list Q := [1 # 2; 1 # 2; 1 # 2; 1 # 2]%Q.

Definition keys_db : Database.VisionMateDB :=
  Database.mkDB ∅
    [Database.mkRemembered 1 "house keys" "keys"
       (Database.DeepFeatures half4 4 (Some 5%nat)) 5;
     Database.mkRemembered 2 "car keys" "keys"
       (Database.DeepFeatures half4 4 (Some 5%nat)) 5]
    2.

Definition no_keypoints : Database.KeypointData :=
  Database.mkKeypoints [] [] [] None [].

Definition deep_matcher : VisualMatcher.Matcher :=
  VisualMatcher.mkMatcher "ORB" Config.OBJECT_MEMORY_MATCH_THRESHOLD true.

Definition keys_memory : @ObjectMemory.Memory ObjectMemory.ExampleImage :=
  ObjectMemory.mkMemory keys_db deep_matcher ObjectMemory.empty_buffer.

(** A frame whose embedding is the first unit vector: its dot product
    with [half4] is exactly 0.5. *)
Definition keys_frame : ObjectMemory.ExampleImage :=
  ObjectMemory.mkImage [1; 0; 0; 0]%Q no_keypoints.

Definition keys_box : BBox := mkBBox 120 120 180 180.

(** A matcher constructed with [match_threshold=0.0], and two candidates
    orthogonal to the query. *)
Definition zero_matcher : VisualMatcher.Matcher :=
  VisualMatcher.mkMatcher "ORB" 0 true.

Definition first_axis : Database.Features :=
  Database.DeepFeatures [1; 0; 0; 0]%Q 4 None.

Definition orthogonal_candidates : list (Z * string * Database.Features) :=
  [(1, "house keys"%string, Database.DeepFeatures [0; 1; 0; 0]%Q 4 (Some 5%nat));
   (2, "car keys"%string, Database.DeepFeatures [0; 1; 0; 0]%Q 4 (Some 5%nat))].

Definition tied_candidates : list (Z * string * Database.Features) :=
  Database.get_remembered_objects_by_class "keys" keys_db.

(** An enrollment of "wallet" under way with the keypoint matcher, two
    frames buffered, neither of which gave descriptors. *)
Definition orb_matcher : VisualMatcher.Matcher :=
  VisualMatcher.mkMatcher "ORB" Config.OBJECT_MEMORY_MATCH_THRESHOLD false.

Definition blank_frame : ObjectMemory.ExampleImage :=
  ObjectMemory.mkImage [] no_keypoints.

Definition wallet_enrollment : @ObjectMemory.Memory ObjectMemory.ExampleImage :=
  ObjectMemory.mkMemory keys_db orb_matcher
    (ObjectMemory.mkBuffer [blank_frame; blank_frame] [keys_box; keys_box]
       (Some "wallet"%string) (Some "work wallet"%string)).

End Scenarios.

(** * Proofs *)

(** ** Rational comparisons *)

Lemma Qlt_bool_iff (x y : Q) : Qlt_bool x y = true <-> (x < y)%Q.
Proof.
  unfold Qlt_bool. rewrite negb_true_iff.
  destruct (Qle_bool y x) eqn:E.
  - apply Qle_bool_iff in E. split; [discriminate | intros Hlt].
    exfalso. apply (Qlt_not_le _ _ Hlt E).
  - split; [intros _ | reflexivity].
    apply Qnot_le_lt. intros Hle. apply Qle_bool_iff in Hle. congruence.
Qed.

Lemma Qlt_bool_false_iff (x y : Q) : Qlt_bool x y = false <-> (y <= x)%Q.
Proof.
  unfold Qlt_bool. rewrite negb_false_iff. apply Qle_bool_iff.
Qed.

Lemma Qle_bool_false_iff (x y : Q) : Qle_bool x y = false <-> (y < x)%Q.
Proof.
  rewrite <- Qlt_bool_iff. unfold Qlt_bool.
  destruct (Qle_bool x y); simpl; split; congruence.
Qed.


(** ** Intersection over union *)

Section IoU.
Import ItemTracker Props.

Lemma Qdiv_self (z : Z) : z <> 0 -> (inject_Z z / inject_Z z == 1)%Q.
Proof.
  intros Hz. apply Qmult_inv_r.
  unfold Qeq, inject_Z. simpl. lia.
Qed.

Lemma Qdiv_zero_num (z : Z) : (inject_Z 0 / inject_Z z == 0)%Q.
Proof. unfold Qdiv. apply Qmult_0_l. Qed.

(** Away from the two zero cases [calculate_iou] is the quotient of the
    shared area by the covered area. *)
Lemma calculate_iou_areas (a b : BBox) :
  intersection_area a b <> 0 -> union_area a b <> 0 ->
  calculate_iou a b =
    (inject_Z (intersection_area a b) / inject_Z (union_area a b))%Q.
Proof.
  intros Hi Hu.
  unfold calculate_iou, union_area, intersection_area, area in *.
  destruct (Z.ltb_spec (Z.min (bx2 a) (bx2 b)) (Z.max (bx1 a) (bx1 b)));
    [exfalso; apply Hi; rewrite (Z.max_l 0) by lia; lia |].
  destruct (Z.ltb_spec (Z.min (by2 a) (by2 b)) (Z.max (by1 a) (by1 b)));
    [exfalso; apply Hi; rewrite (Z.max_l 0 (_ - Z.max (by1 a) _)) by lia; lia |].
  simpl.
  rewrite !(Z.max_r 0) in Hu by lia. rewrite !(Z.max_r 0) by lia.
  destruct (Z.eqb_spec
    ((bx2 a - bx1 a) * (by2 a - by1 a) + (bx2 b - bx1 b) * (by2 b - by1 b)
     - (Z.min (bx2 a) (bx2 b) - Z.max (bx1 a) (bx1 b))
       * (Z.min (by2 a) (by2 b) - Z.max (by1 a) (by1 b))) 0);
    [contradiction | reflexivity].
Qed.

Lemma calculate_iou_self (a : BBox) :
  valid_box a -> area a <> 0 -> (calculate_iou a a == 1)%Q.
Proof.
  intros [Hx Hy] Ha. unfold calculate_iou, area in *.
  rewrite !Z.max_id, !Z.min_id.
  destruct (Z.ltb_spec (bx2 a) (bx1 a)); [lia |].
  destruct (Z.ltb_spec (by2 a) (by1 a)); [lia |]. simpl.
  replace ((bx2 a - bx1 a) * (by2 a - by1 a) + (bx2 a - bx1 a) * (by2 a - by1 a)
           - (bx2 a - bx1 a) * (by2 a - by1 a))
    with ((bx2 a - bx1 a) * (by2 a - by1 a)) by lia.
  destruct (Z.eqb_spec ((bx2 a - bx1 a) * (by2 a - by1 a)) 0); [contradiction |].
  now apply Qdiv_self.
Qed.

Lemma calculate_iou_self_degenerate (a : BBox) :
  area a = 0 -> (calculate_iou a a == 0)%Q.
Proof.
  intros Ha. unfold calculate_iou, area in *.
  rewrite !Z.max_id, !Z.min_id.
  destruct ((bx2 a <? bx1 a) || (by2 a <? by1 a)); [reflexivity |].
  rewrite Ha. simpl. reflexivity.
Qed.

Lemma calculate_iou_sym (a b : BBox) : calculate_iou a b = calculate_iou b a.
Proof.
  unfold calculate_iou.
  rewrite (Z.max_comm (bx1 b)), (Z.max_comm (by1 b)),
          (Z.min_comm (bx2 b)), (Z.min_comm (by2 b)).
  rewrite (Z.add_comm ((bx2 b - bx1 b) * (by2 b - by1 b))).
  reflexivity.
Qed.

Lemma calculate_iou_disjoint (a b : BBox) :
  non_overlapping a b -> (calculate_iou a b == 0)%Q.
Proof.
  unfold non_overlapping, intersection_area, calculate_iou. intros H.
  destruct (Z.ltb_spec (Z.min (bx2 a) (bx2 b)) (Z.max (bx1 a) (bx1 b)));
    [reflexivity |].
  destruct (Z.ltb_spec (Z.min (by2 a) (by2 b)) (Z.max (by1 a) (by1 b)));
    [reflexivity |]. simpl.
  rewrite !(Z.max_r 0) in H by lia. rewrite H.
  match goal with |- context [if ?c then _ else _] => destruct c end;
    [reflexivity | apply Qdiv_zero_num].
Qed.

Lemma calculate_iou_zero_union (a b : BBox) :
  union_area a b = 0 -> (calculate_iou a b == 0)%Q.
Proof.
  unfold union_area, intersection_area, area, calculate_iou. intros H.
  destruct (Z.ltb_spec (Z.min (bx2 a) (bx2 b)) (Z.max (bx1 a) (bx1 b)));
    [reflexivity |].
  destruct (Z.ltb_spec (Z.min (by2 a) (by2 b)) (Z.max (by1 a) (by1 b)));
    [reflexivity |]. simpl.
  rewrite !(Z.max_r 0) in H by lia. rewrite H. reflexivity.
Qed.

End IoU.

(** ** Item tracking: one call of [update_tracking], seen from one pair *)

Section Tracking.
Import Database ItemTracker Props.

Implicit Types (p k : PairKey) (acc : Loop) (st : TrackState).














Lemma visit_active now tmo k acc :
  l_active (visit now tmo k acc) = {[k]} ∪ l_active acc.
Proof.
  unfold visit. destruct (l_state acc !! k) as [st |]; [| reflexivity].
  destruct (Qle_bool tmo (now - start_time st) && negb (confirmed st));
    reflexivity.
Qed.

Lemma visits_active now tmo ks : forall acc p,
  p ∈ l_active (visits now tmo ks acc) <-> p ∈ l_active acc \/ In p ks.
Proof.
  induction ks as [| k ks IH]; intros acc p; simpl; [tauto |].
  unfold visits in *. rewrite IH, visit_active. set_solver.
Qed.

(** The datastore after the loop is the one before it with the emitted
    events written, in order: one write per event. *)
Lemma visit_db now tmo k acc d0 :
  l_db acc = replay (l_confirmed acc) d0 ->
  l_db (visit now tmo k acc) = replay (l_confirmed (visit now tmo k acc)) d0.
Proof.
  intros H. unfold visit.
  destruct (l_state acc !! k) as [st |]; [| exact H].
  destruct (Qle_bool tmo (now - start_time st) && negb (confirmed st));
    simpl; [| exact H].
  unfold replay. rewrite List.fold_left_app. simpl.
  fold (replay (l_confirmed acc) d0). now rewrite <- H.
Qed.

Lemma visits_db now tmo ks : forall acc d0,
  l_db acc = replay (l_confirmed acc) d0 ->
  l_db (visits now tmo ks acc) = replay (l_confirmed (visits now tmo ks acc)) d0.
Proof.
  induction ks as [| k ks IH]; intros acc d0 H; simpl; [exact H |].
  apply IH. now apply visit_db.
Qed.

Lemma set_fold_delete (m : gmap PairKey TrackState) (X : gset PairKey) p :
  set_fold (fun pair m => delete pair m) m X !! p
    = if decide (p ∈ X) then None else m !! p.
Proof.
  revert X.
  apply (set_fold_ind_L
    (fun (r : gmap PairKey TrackState) (Y : gset PairKey) =>
       r !! p = if decide (p ∈ Y) then None else m !! p)
    (fun pair m => delete pair m) m).
  - destruct (decide (p ∈ (∅ : gset PairKey))); [set_solver | reflexivity].
  - intros x Y r Hx IH.
    destruct (decide (x = p)) as [-> | Hne].
    + rewrite lookup_delete_eq.
      destruct (decide (p ∈ {[p]} ∪ Y)); [reflexivity | set_solver].
    + rewrite lookup_delete_ne by exact Hne. rewrite IH.
      destruct (decide (p ∈ Y)), (decide (p ∈ {[x]} ∪ Y));
        try reflexivity; set_solver.
Qed.


Lemma update_tracking_unfold now ds (t : Tracker) :
  update_tracking now ds t =
    let acc := visits now (timeout t) (frame_pairs t ds)
                 (mkLoop ∅ (tracking_state t) [] (db t)) in
    (l_confirmed acc,
     mkTracker (l_db acc) (timeout t) (iou_threshold t)
       (set_fold (fun pair m => delete pair m) (l_state acc)
          (dom (l_state acc) ∖ l_active acc))).
Proof. reflexivity. Qed.


Lemma update_tracking_db now ds (t : Tracker) :
  db (snd (update_tracking now ds t))
    = replay (fst (update_tracking now ds t)) (db t).
Proof.
  rewrite update_tracking_unfold. cbn [fst snd db].
  apply (visits_db now (timeout t) _ (mkLoop ∅ (tracking_state t) [] (db t))).
  reflexivity.
Qed.


End Tracking.

(** ** Item tracking: a pair over successive calls *)

Section TrackingRuns.
Import Database ItemTracker Props.

Implicit Types (p : PairKey) (t : Tracker)
  (frames rest : list (Q * list Detection)).

#[local] Arguments update_tracking : simpl never.













End TrackingRuns.

(** * The claims *)

Section Claims_ItemTracker.
Import Database ItemTracker Props Scenarios.

#[local] Arguments update_tracking : simpl never.

(** C6, as stated, fails: a box of no area is a valid box
    ([x1 <= x2], [y1 <= y2]), and [calculate_iou] of it with itself is
    [0.0], not [1.0], because the covered area is zero. *)
Lemma C6_iou_self_degenerate_counterexample :
  valid_box point_box /\ ~ (calculate_iou point_box point_box == 1)%Q.
Proof.
  split.
  - unfold valid_box, point_box. simpl. lia.
  - vm_compute. discriminate.
Qed.

(** C6, amended.  For valid boxes [a] and [b]: [calculate_iou a a] is 1
    when [a] has a non-zero area and 0 when its area is zero; the IoU is
    symmetric; it is 0 for boxes that share no area; and it is 0 when the
    area covered by the two boxes is zero. *)
Theorem C6_calculate_iou_properties (a b : BBox) :
  valid_box a -> valid_box b ->
  (area a <> 0 -> (calculate_iou a a == 1)%Q) /\
  (area a = 0 -> (calculate_iou a a == 0)%Q) /\
  calculate_iou a b = calculate_iou b a /\
  (non_overlapping a b -> (calculate_iou a b == 0)%Q) /\
  (union_area a b = 0 -> (calculate_iou a b == 0)%Q).
Proof.
  intros Ha Hb. repeat split.
  - now apply calculate_iou_self.
  - apply calculate_iou_self_degenerate.
  - apply calculate_iou_sym.
  - apply calculate_iou_disjoint.
  - apply calculate_iou_zero_union.
Qed.

Lemma C6_calculate_iou_properties_witness :
  (calculate_iou square_a square_a == 1)%Q /\
  calculate_iou square_a square_b = calculate_iou square_b square_a.
Proof.
  assert (Ha : valid_box square_a) by (unfold valid_box; simpl; lia).
  assert (Hb : valid_box square_b) by (unfold valid_box; simpl; lia).
  destruct (C6_calculate_iou_properties square_a square_b Ha Hb)
    as (H1 & _ & H3 & _).
  split; [apply H1; vm_compute; discriminate | exact H3].
Defined.



End Claims_ItemTracker.

(** ** The audio queue *)

Section AudioQueue.
Import AudioFeedback Props.

Implicit Types (a b c : Entry) (q : list Entry).

Lemma string_ltb_lt (s1 s2 : string) :
  String.ltb s1 s2 = true <-> String_as_OT.lt s1 s2.
Proof.
  unfold String.ltb. rewrite <- String_as_OT.cmp_lt.
  unfold String_as_OT.cmp.
  destruct (String.compare s1 s2); split; congruence.
Qed.

Lemma string_ltb_irrefl (s : string) : String.ltb s s = false.
Proof.
  destruct (String.ltb s s) eqn:E; [| reflexivity].
  apply string_ltb_lt in E.
  exfalso. now apply (String_as_OT.lt_not_eq _ _ E).
Qed.

Lemma string_ltb_trans (s1 s2 s3 : string) :
  String.ltb s1 s2 = true -> String.ltb s2 s3 = true ->
  String.ltb s1 s3 = true.
Proof.
  rewrite !string_ltb_lt. apply String_as_OT.lt_trans.
Qed.

Lemma string_ltb_total (s1 s2 : string) :
  String.ltb s1 s2 = false -> String.ltb s2 s1 = false -> s1 = s2.
Proof.
  unfold String.ltb.
  pose proof (String_as_OT.cmp_antisym s2 s1) as Hanti.
  pose proof (String_as_OT.cmp_eq s1 s2) as Heq.
  unfold String_as_OT.cmp in Hanti, Heq. rewrite Hanti.
  destruct (String.compare s1 s2); simpl; try discriminate.
  intros _ _. now apply Heq.
Qed.

Lemma entry_ltb_irrefl a : entry_ltb a a = false.
Proof.
  unfold entry_ltb. rewrite Z.ltb_irrefl, Z.eqb_refl, string_ltb_irrefl.
  reflexivity.
Qed.

Lemma entry_ltb_spec a b :
  entry_ltb a b = true <->
  fst a < fst b \/ (fst a = fst b /\ String.ltb (snd a) (snd b) = true).
Proof.
  unfold entry_ltb.
  rewrite orb_true_iff, andb_true_iff, Z.ltb_lt, Z.eqb_eq. reflexivity.
Qed.

Lemma entry_ltb_trans a b c :
  entry_ltb a b = true -> entry_ltb b c = true -> entry_ltb a c = true.
Proof.
  rewrite !entry_ltb_spec.
  intros [H1 | [H1 T1]] [H2 | [H2 T2]]; try (left; lia).
  right. split; [lia | eapply string_ltb_trans; eauto].
Qed.

(** Two entries of which neither sorts before the other are the same
    tuple. *)
Lemma entry_ltb_total a b :
  entry_ltb a b = false -> entry_ltb b a = false -> a = b.
Proof.
  unfold entry_ltb. rewrite !orb_false_iff, !andb_false_iff.
  rewrite !Z.ltb_ge, !Z.eqb_neq.
  intros [H1 T1] [H2 T2]. destruct a as [pa ta], b as [pb tb]. simpl in *.
  assert (pa = pb) by lia. subst.
  destruct T1 as [? | T1]; [congruence |].
  destruct T2 as [? | T2]; [congruence |].
  f_equal. now apply string_ltb_total.
Qed.

Lemma entry_le_refl a : entry_le a a.
Proof. apply entry_ltb_irrefl. Qed.

Lemma entry_le_trans a b c : entry_le a b -> entry_le b c -> entry_le a c.
Proof.
  unfold entry_le. intros H1 H2.
  destruct (entry_ltb c a) eqn:E; [| reflexivity].
  destruct (entry_ltb c b) eqn:E2; [congruence |].
  destruct (entry_ltb a b) eqn:E3.
  - rewrite (entry_ltb_trans c a b E E3) in E2. discriminate.
  - assert (a = b) by now apply entry_ltb_total. subst. congruence.
Qed.

Lemma entry_le_of_ltb a b : entry_ltb a b = true -> entry_le a b.
Proof.
  intros H. unfold entry_le.
  destruct (entry_ltb b a) eqn:E; [| reflexivity].
  pose proof (entry_ltb_trans a b a H E) as C.
  rewrite entry_ltb_irrefl in C. discriminate.
Qed.

Lemma least_le_start q : forall a, entry_le (least a q) a.
Proof.
  induction q as [| b q IH]; intros a; simpl; [apply entry_le_refl |].
  destruct (entry_ltb b a) eqn:E; [| apply IH].
  eapply entry_le_trans; [apply IH | now apply entry_le_of_ltb].
Qed.

Lemma least_le_all q : forall a b, In b q -> entry_le (least a q) b.
Proof.
  induction q as [| c q IH]; intros a b Hin; [destruct Hin |].
  simpl. destruct Hin as [-> | Hin]; [| now apply IH].
  destruct (entry_ltb b a) eqn:E; [apply least_le_start |].
  eapply entry_le_trans; [apply least_le_start | exact E].
Qed.

Lemma least_in q : forall a, In (least a q) (a :: q).
Proof.
  induction q as [| b q IH]; intros a; simpl; [now left |].
  destruct (IH (if entry_ltb b a then b else a)) as [H | H].
  - destruct (entry_ltb b a); rewrite <- H; auto.
  - right. now right.
Qed.

Lemma remove_first_perm a q :
  In a q -> Permutation q (a :: remove_first a q).
Proof.
  induction q as [| b q IH]; intros Hin; [destruct Hin |].
  simpl. destruct ((fst b =? fst a) && String.eqb (snd b) (snd a)) eqn:E.
  - apply andb_true_iff in E as [E1 E2].
    apply Z.eqb_eq in E1. apply String.eqb_eq in E2.
    destruct a, b; simpl in *; subst. reflexivity.
  - destruct Hin as [-> | Hin].
    + rewrite Z.eqb_refl, String.eqb_refl in E. discriminate.
    + rewrite perm_swap. apply perm_skip. now apply IH.
Qed.

Lemma pq_get_spec q m rest :
  pq_get q = Some (m, rest) ->
  Permutation q (m :: rest) /\ Forall (entry_le m) q.
Proof.
  destruct q as [| a q]; [discriminate |].
  unfold pq_get. intros [= <- <-]. split.
  - apply remove_first_perm. apply least_in.
  - constructor; [apply least_le_start |].
    apply List.Forall_forall. intros b Hb. now apply least_le_all.
Qed.

(** The worker takes every pending entry, in ascending order. *)
Lemma drain_sorted n : forall q,
  (length q <= n)%nat ->
  Permutation q (drain n q) /\ StronglySorted entry_le (drain n q).
Proof.
  induction n as [| n IH]; intros q Hn.
  - destruct q; [| simpl in Hn; lia]. simpl. split; constructor.
  - simpl. destruct (pq_get q) as [[m rest] |] eqn:E.
    + destruct (pq_get_spec q m rest E) as [P F].
      assert (Hlen : (length rest <= n)%nat).
      { apply Permutation_length in P. simpl in P. lia. }
      destruct (IH rest Hlen) as [P' S'].
      split.
      * rewrite P. now apply perm_skip.
      * constructor; [exact S' |].
        rewrite <- P'. rewrite P in F. now inversion F.
    + destruct q; [| discriminate]. split; constructor.
Qed.

Lemma worker_run_spoken n : forall au,
  spoken (worker_run n au)
    = spoken au ++ List.map snd (drain n (audio_queue au)).
Proof.
  induction n as [| n IH]; intros au; simpl; [now rewrite app_nil_r |].
  rewrite IH. unfold worker_take.
  destruct (pq_get (audio_queue au)) as [[[pr text] rest] |] eqn:E; simpl.
  - now rewrite <- app_assoc.
  - destruct (audio_queue au); [| discriminate].
    destruct n; simpl; now rewrite app_nil_r.
Qed.

End AudioQueue.

Section Claims_Audio.
Import AudioFeedback Props Scenarios.

(** C1, as stated, fails.  The queue holds tuples [(priority, text)]
    without an arrival number, so two messages of one priority leave in
    the order of their texts: "b" is enqueued before "a" and played after
    it.  In the scenario of the claim, with nothing playing, the
    navigational message is played before the status message that was
    enqueued first; with the status message already playing, the
    emergency call empties the queue and the navigational message is
    never played. *)
Lemma C1_fifo_order_counterexample :
  spoken two_equal_priority = ["x"; "a"; "b"]%string /\
  spoken three_priorities = ["emergency"; "navigational"; "status"]%string /\
  spoken three_priorities_playing = ["status"; "emergency"]%string.
Proof. repeat split; vm_compute; reflexivity. Qed.

(** C1, amended.  The worker, left alone for as many turns as there are
    pending entries, plays all of them in ascending order of the tuple
    [(priority, text)]: lower priority number first, and for one priority
    the smaller text first.  [speak] appends the new entry to the pending
    ones, after emptying them when the call interrupts (asked for, or
    priority Emergency) while a message is playing.  Status, Navigational
    and Emergency enqueued while nothing is playing are played as
    Emergency, Navigational, Status. *)
Theorem C1_queue_order_by_priority_then_text :
  (forall au : Audio,
     let played := drain (length (audio_queue au)) (audio_queue au) in
     spoken (worker_run (length (audio_queue au)) au)
       = spoken au ++ List.map snd played /\
     Permutation (audio_queue au) played /\
     StronglySorted entry_le played) /\
  (forall a b : Entry,
     entry_le a b <->
     fst a < fst b \/ (fst a = fst b /\ String.ltb (snd b) (snd a) = false)) /\
  (forall text priority interrupt (au : Audio),
     audio_queue (speak text priority interrupt au)
       = (if (interrupt || (priority =? Config.PRIORITY_EMERGENCY))
             && is_playing au
          then [] else audio_queue au) ++ [(priority, text)]) /\
  spoken three_priorities = ["emergency"; "navigational"; "status"]%string.
Proof.
  split; [| split; [| split]].
  - intros au played. split; [apply worker_run_spoken |].
    apply drain_sorted. reflexivity.
  - intros a b. unfold entry_le, entry_ltb.
    rewrite orb_false_iff, andb_false_iff, Z.ltb_ge, Z.eqb_neq. split.
    + intros [H1 [H2 | H2]]; [left; lia |].
      destruct (Z.eq_dec (fst a) (fst b)); [right; auto | left; lia].
    + intros [H | [H1 H2]]; (split; [lia |]); [left; lia | right; exact H2].
  - intros text priority interrupt au. unfold speak, pq_put.
    destruct (priority =? Config.PRIORITY_EMERGENCY), interrupt,
      (is_playing au); reflexivity.
  - vm_compute. reflexivity.
Qed.

End Claims_Audio.

(** ** The navigation engine *)

Section Navigation.
Import NavigationEngine Props.
Context {G : Geodesy} {M : Type} {N : Navigator M}.

Implicit Types (e : Engine) (m : M) (r : Route) (pos : Q * Q).

Lemma update_inactive gps e m :
  navigation_active e = false -> update gps e m = Some (Inactive, e, m).
Proof. intros H. unfold update. now rewrite H. Qed.

Lemma updates_inactive fixes : forall e m,
  navigation_active e = false ->
  updates fixes e m = Some (List.map (fun _ => Inactive) fixes, e, m).
Proof.
  induction fixes as [| gps fixes IH]; intros e m H; [reflexivity |].
  simpl. rewrite (update_inactive gps e m H), (IH e m H). reflexivity.
Qed.

Lemma update_arrived e m r pos d :
  navigation_active e = true -> active_route e = Some r ->
  _calculate_distance_to_destination r pos = Some d ->
  (d < arrival_distance e)%Q ->
  update (Some pos) e m =
    Some (Arrived "You have arrived at your destination" d,
          set_navigation_active false e, m).
Proof.
  intros Ha Hr Hd Hlt. unfold update, _is_arrived. rewrite Ha, Hr, Hd.
  apply Qlt_bool_iff in Hlt. now rewrite Hlt.
Qed.

Lemma update_not_arrived e m r pos d status e' m' :
  navigation_active e = true -> active_route e = Some r ->
  _calculate_distance_to_destination r pos = Some d ->
  (arrival_distance e <= d)%Q ->
  update (Some pos) e m = Some (status, e', m') ->
  is_arrived_status status = false /\ navigation_active e' = true.
Proof.
  intros Ha Hr Hd Hle. unfold update, _is_arrived. rewrite Ha, Hr, Hd.
  apply Qlt_bool_false_iff in Hle. rewrite Hle.
  destruct (_is_off_route r e pos) as [[|] |]; [| | discriminate].
  - destruct (_calculate_deviation r e pos); [| discriminate].
    intros [= <- <- <-]. auto.
  - destruct (get_current_instruction m); [| intros [= <- <- <-]; auto].
    destruct (_calculate_distance_to_waypoint r e pos) as [dw |];
      [| discriminate].
    unfold _should_announce.
    destruct (Qle_bool dw (announcement_distance e));
      destruct (negb (announced_here e));
      destruct (Qlt_bool dw 10); destruct (advance_step m) as [m1 [|]];
      intros [= <- <- <-]; simpl; auto.
Qed.




End Navigation.

Section Claims_Navigation.
Import NavigationEngine Props Scenarios.


(** C3, as stated, fails at the boundary: [_is_arrived] tests
    [distance < arrival_distance].  With [arrival_distance = 0.0] and the
    GPS reading on the final waypoint the distance is [0.0], which is
    [<= arrival_distance], and [update] does not report arrival; the
    navigation stays active. *)
Lemma C3_arrival_at_exact_distance_counterexample :
  let d := meridian_distance (1 # 100) 0 (1 # 100) 0 in
  @_calculate_distance_to_destination meridian_geodesy walk at_destination
    = Some d /\
  (d <= arrival_distance walking_exact)%Q /\
  exists status e',
    @update meridian_geodesy _ google_navigator
      (Some at_destination) walking_exact walk_maps
      = Some (status, e', walk_maps) /\
    is_arrived_status status = false /\ navigation_active e' = true.
Proof.
  split; [reflexivity |]. split; [vm_compute; discriminate |].
  eexists. eexists. split; [vm_compute; reflexivity |]. split; reflexivity.
Qed.

(** C3, amended.  With navigation active, a route loaded and a GPS fix,
    [update] measures the distance [d] to the last waypoint of the route.
    If [d] is strictly less than [arrival_distance] the call returns the
    arrival status with its message and clears [navigation_active],
    changing nothing else; every later sequence of calls, whatever the
    GPS readings, returns the inactive status each time and leaves engine
    and navigator as they are.  If [d] is at least [arrival_distance] the
    call does not report arrival and navigation stays active. *)
Theorem C3_update_arrives_once {G : Geodesy} {M : Type} {N : Navigator M}
    (e : Engine) (m : M) (r : Route) (pos : Q * Q) (d : Q) :
  navigation_active e = true ->
  active_route e = Some r ->
  _calculate_distance_to_destination r pos = Some d ->
  ((d < arrival_distance e)%Q ->
     update (Some pos) e m =
       Some (Arrived "You have arrived at your destination" d,
             set_navigation_active false e, m) /\
     forall fixes m',
       updates fixes (set_navigation_active false e) m' =
         Some (List.map (fun _ => Inactive) fixes,
               set_navigation_active false e, m')) /\
  ((arrival_distance e <= d)%Q ->
     forall status e' m',
       update (Some pos) e m = Some (status, e', m') ->
       is_arrived_status status = false /\ navigation_active e' = true).
Proof.
  intros Ha Hr Hd. split.
  - intros Hlt. split; [now apply (update_arrived e m r pos d) |].
    intros fixes m'. now apply updates_inactive.
  - intros Hle status e' m'. now apply (update_not_arrived e m r pos d).
Qed.

Lemma C3_update_arrives_once_witness :
  let d := meridian_distance (999 # 100000) 0 (1 # 100) 0 in
  @update meridian_geodesy _ google_navigator
    (Some near_destination) walking walk_maps
    = Some (Arrived "You have arrived at your destination" d,
            set_navigation_active false walking, walk_maps) /\
  @updates meridian_geodesy _ google_navigator
    [Some near_destination; None; Some at_destination]
    (set_navigation_active false walking) walk_maps
    = Some ([Inactive; Inactive; Inactive],
            set_navigation_active false walking, walk_maps).
Proof.
  intros d.
  destruct (@C3_update_arrives_once meridian_geodesy _ google_navigator
              walking walk_maps walk near_destination d
              eq_refl eq_refl eq_refl) as [H _].
  assert (Hd : (d < arrival_distance walking)%Q) by (vm_compute; reflexivity).
  destruct (H Hd) as [H1 H2]. split; [exact H1 |].
  exact (H2 [Some near_destination; None; Some at_destination] walk_maps).
Defined.




End Claims_Navigation.

(** ** Stable sorting *)

Section Sorting.
Context {A : Type} (leb : A -> A -> bool).
Hypothesis leb_total : forall a b, leb a b = true \/ leb b a = true.
Hypothesis leb_trans :
  forall a b c, leb a b = true -> leb b c = true -> leb a c = true.

Lemma insert_by_perm (x : A) (l : list A) :
  Permutation (x :: l) (insert_by leb x l).
Proof.
  induction l as [| y l IH]; simpl; [reflexivity |].
  destruct (leb x y); [reflexivity |].
  rewrite perm_swap. now apply perm_skip.
Qed.

Lemma sort_by_perm (l : list A) : Permutation l (sort_by leb l).
Proof.
  induction l as [| x l IH]; simpl; [reflexivity |].
  rewrite <- insert_by_perm. now apply perm_skip.
Qed.



End Sorting.




(** ** Guidance and obstacle warnings *)

Section Guidance.
Import SpatialNavigator ObstacleFusion Props.






Section Warnings.
Context {FF : FloatFormat}.

Lemma warn_one_priority (f : Fusion) (obj : Enhanced) :
  w_priority (warn_one f obj) =
    if Qlt_bool (precise_distance obj) (1 # 2) then 1
    else if Qlt_bool (precise_distance obj) 1 then 2 else 3.
Proof.
  unfold warn_one.
  destruct (Qlt_bool (precise_distance obj) (1 # 2));
    [reflexivity |].
  destruct (Qlt_bool (precise_distance obj) 1); reflexivity.
Qed.




End Warnings.

End Guidance.

Section Claims_Guidance.
Import SpatialNavigator ObstacleFusion Props Scenarios.


(** C8.  For the chair at (50,400,150,470) and the person at
    (500,200,600,300) in a 640x480 frame, the loop of [generate_guidance]
    records the zones bottom-left and right as occupied, for which
    [get_clear_direction] has no direction to offer, and the aggregate
    entry of the returned list is the one that says to stop because the
    path is blocked.  (The spatial navigator has no range sensor; its
    distances come from the box areas.) *)
Theorem C8_hallway_path_blocked :
  occupied_zones hallway_navigator hallway = ["bottom-left"; "right"]%string /\
  get_clear_direction (occupied_zones hallway_navigator hallway) = None /\
  generate_guidance hallway_navigator hallway =
    [mkGuidance "Chair bottom left" 1 "bottom-left" "far" "chair"
       (Some (mkBBox 50 400 150 470));
     mkGuidance "Path blocked, stop" 1 "navigation" "immediate" "emergency"
       None;
     mkGuidance "Person right" 2 "right" "far" "person"
       (Some (mkBBox 500 200 600 300))]%string.
Proof. repeat split; vm_compute; reflexivity. Qed.

End Claims_Guidance.

(** ** Matching *)

Section Matching.
Import Database VisualMatcher Props.
Context {Image : Type} {B : Backend Image}.

Implicit Types (m : Matcher) (q : Features) (b : Best)
  (x : Z * string * Features) (l : list (Z * string * Features)).


Lemma consider_spec m q b x :
  consider m q b x =
    if Qlt_bool (best_confidence b) (conf q x)
       && Qle_bool (match_threshold m) (conf q x)
    then mkBest (conf q x) (Some (fst (fst x))) (Some (snd (fst x)))
    else b.
Proof. destruct x as [[i n] f]. reflexivity. Qed.

(** A later candidate takes the place of the best one only with a
    strictly greater confidence. *)
Lemma consider_replaces m q b x :
  consider m q b x <> b -> (best_confidence b < conf q x)%Q.
Proof.
  rewrite consider_spec.
  destruct (Qlt_bool (best_confidence b) (conf q x)) eqn:E;
    [intros _; now apply Qlt_bool_iff | simpl; congruence].
Qed.


Lemma considered_below m q l : forall b (c : Q),
  (best_confidence b < c)%Q ->
  Forall (fun x => (conf q x < c)%Q) l ->
  (best_confidence (considered m q l b) < c)%Q.
Proof.
  induction l as [| x l IH]; intros b c Hb Hl; [exact Hb |].
  inversion Hl as [| ? ? Hx Hl']; subst. simpl. apply IH; [| exact Hl'].
  rewrite consider_spec.
  destruct (Qlt_bool (best_confidence b) (conf q x)
            && Qle_bool (match_threshold m) (conf q x)); assumption.
Qed.

Lemma considered_keeps m q l : forall b,
  Forall (fun x => (conf q x <= best_confidence b)%Q) l ->
  considered m q l b = b.
Proof.
  induction l as [| x l IH]; intros b Hl; [reflexivity |].
  inversion Hl as [| ? ? Hx Hl']; subst. simpl.
  rewrite consider_spec.
  apply Qlt_bool_false_iff in Hx. rewrite Hx. simpl. now apply IH.
Qed.

Lemma considered_none m q l : forall b,
  Forall (fun x => ~ ((best_confidence b < conf q x)%Q
                      /\ (match_threshold m <= conf q x)%Q)) l ->
  considered m q l b = b.
Proof.
  induction l as [| x l IH]; intros b Hl; [reflexivity |].
  inversion Hl as [| ? ? Hx Hl']; subst. simpl.
  rewrite consider_spec.
  destruct (Qlt_bool (best_confidence b) (conf q x)) eqn:E1;
    destruct (Qle_bool (match_threshold m) (conf q x)) eqn:E2; simpl;
    try now apply IH.
  exfalso. apply Hx. split; [now apply Qlt_bool_iff | now apply Qle_bool_iff].
Qed.

Lemma find_best_match_unfold m q l :
  find_best_match m q l =
    match l with
    | [] => None
    | _ =>
        match best_id (considered m q l (mkBest 0 None None)),
              best_name (considered m q l (mkBest 0 None None)) with
        | Some i, Some n =>
            Some (i, n, best_confidence (considered m q l (mkBest 0 None None)))
        | _, _ => None
        end
    end.
Proof. destruct l; reflexivity. Qed.

(** The first candidate of greatest confidence is returned, when that
    confidence is positive and reaches the threshold. *)
Lemma find_best_match_first_max m q l1 i n f l2 :
  (0 < conf q (i, n, f))%Q ->
  (match_threshold m <= conf q (i, n, f))%Q ->
  Forall (fun x => (conf q x < conf q (i, n, f))%Q) l1 ->
  Forall (fun x => (conf q x <= conf q (i, n, f))%Q) l2 ->
  find_best_match m q (l1 ++ (i, n, f) :: l2) = Some (i, n, conf q (i, n, f)).
Proof.
  intros Hpos Hthr H1 H2. rewrite find_best_match_unfold.
  unfold considered. rewrite List.fold_left_app. cbn [List.fold_left].
  fold (considered m q l1 (mkBest 0 None None)).
  pose proof (considered_below m q l1 (mkBest 0 None None) _ Hpos H1) as Hb.
  set (b1 := considered m q l1 (mkBest 0 None None)) in *.
  assert (Hc : consider m q b1 (i, n, f)
               = mkBest (conf q (i, n, f)) (Some i) (Some n)).
  { rewrite consider_spec.
    apply Qlt_bool_iff in Hb. apply Qle_bool_iff in Hthr.
    now rewrite Hb, Hthr. }
  assert (Hk : considered m q l2 (consider m q b1 (i, n, f))
               = mkBest (conf q (i, n, f)) (Some i) (Some n)).
  { rewrite Hc. now apply considered_keeps. }
  unfold considered in Hk. rewrite Hk. cbn [best_id best_name best_confidence].
  destruct (l1 ++ (i, n, f) :: l2) eqn:E; [| reflexivity].
  now destruct l1.
Qed.


Lemma scan_ok_step m q l b x :
  scan_ok m q l b -> scan_ok m q (l ++ [x]) (consider m q b x).
Proof.
  intros [Hb Hall]. rewrite consider_spec.
  assert (Hnonneg : (0 <= best_confidence b)%Q).
  { destruct Hb as [(_ & _ & ->) | (i & n & f & _ & -> & [Hp _])].
    - apply Qle_refl.
    - simpl. now apply Qlt_le_weak. }
  destruct (Qlt_bool (best_confidence b) (conf q x)) eqn:E1;
    destruct (Qle_bool (match_threshold m) (conf q x)) eqn:E2; simpl.
  - apply Qlt_bool_iff in E1. apply Qle_bool_iff in E2. split.
    + right. destruct x as [[i n] f]. exists i, n, f.
      split; [apply List.in_or_app; right; now left |].
      split; [reflexivity |]. split; [| exact E2].
      eapply Qle_lt_trans; eauto.
    + apply List.Forall_app. split.
      * eapply List.Forall_impl; [| exact Hall]. intros y Hy Ht. simpl.
        specialize (Hy Ht). eapply Qle_trans; [exact Hy |].
        now apply Qlt_le_weak.
      * constructor; [| constructor]. intros _. simpl. apply Qle_refl.
  - apply Qlt_bool_iff in E1. apply Qle_bool_false_iff in E2. split.
    + destruct Hb as [Hb | (i & n & f & Hin & Hbb & Hq)]; [now left |].
      right. exists i, n, f. split; [apply List.in_or_app; now left | auto].
    + apply List.Forall_app. split; [exact Hall |].
      constructor; [| constructor]. intros Ht. exfalso.
      apply (Qlt_not_le _ _ E2 Ht).
  - apply Qlt_bool_false_iff in E1. split.
    + destruct Hb as [Hb | (i & n & f & Hin & Hbb & Hq)]; [now left |].
      right. exists i, n, f. split; [apply List.in_or_app; now left | auto].
    + apply List.Forall_app. split; [exact Hall |].
      constructor; [| constructor]. intros _. exact E1.
  - apply Qlt_bool_false_iff in E1. split.
    + destruct Hb as [Hb | (i & n & f & Hin & Hbb & Hq)]; [now left |].
      right. exists i, n, f. split; [apply List.in_or_app; now left | auto].
    + apply List.Forall_app. split; [exact Hall |].
      constructor; [| constructor]. intros _. exact E1.
Qed.

Lemma scan_ok_all m q l : scan_ok m q l (considered m q l (mkBest 0 None None)).
Proof.
  induction l as [| x l IH] using List.rev_ind.
  - split; [left; auto | constructor].
  - unfold considered. rewrite List.fold_left_app. simpl.
    now apply scan_ok_step.
Qed.


(** No match is returned exactly when no candidate qualifies. *)
Lemma find_best_match_none m q l :
  find_best_match m q l = None <-> Forall (fun x => ~ qualifies m q x) l.
Proof.
  split.
  - rewrite find_best_match_unfold. destruct l as [| x0 l0]; [constructor |].
    destruct (scan_ok_all m q (x0 :: l0)) as [Hb Hall].
    set (b := considered m q (x0 :: l0) (mkBest 0 None None)) in *.
    destruct Hb as [(Hi & Hn & Hc) | (i' & n' & f & Hin & Hbb & Hq)].
    + intros _. rewrite Hc in Hall.
      eapply List.Forall_impl; [| exact Hall].
      intros y Hy [Hp Ht]. specialize (Hy Ht).
      apply (Qlt_not_le _ _ Hp Hy).
    + rewrite Hbb. simpl. discriminate.
  - intros Hall. rewrite find_best_match_unfold.
    destruct l as [| x0 l0]; [reflexivity |].
    rewrite considered_none; [reflexivity |].
    eapply List.Forall_impl; [| exact Hall]. intros y Hy. exact Hy.
Qed.

End Matching.

(** ** Enrollment *)

Section Enrollment.
Import Database VisualMatcher ObjectMemory Props.
Context {Image : Type} {B : Backend Image}.

Implicit Types (m : Matcher) (om : @Memory Image).

Lemma extract_features_shape m (image : Image) (b : BBox) :
  is_deep (extract_features m image b) = use_deep_features m.
Proof. unfold extract_features. destruct (use_deep_features m); reflexivity. Qed.



End Enrollment.

Section Claims_Memory.
Import Database VisualMatcher ObjectMemory Props Scenarios.

#[local] Existing Instance example_backend.






(** C10, as stated, fails when the tied top confidence is not positive:
    the scan starts from [best_confidence = 0.0] and only a strictly
    greater confidence is taken.  With [match_threshold = 0.0] and two
    candidates of confidence 0.0 -- equal, and at the threshold --
    [find_best_match] returns no match instead of the first
    candidate. *)
Lemma C10_tie_at_zero_counterexample :
  Forall (fun x => (conf first_axis x == 0)%Q /\
                   (match_threshold zero_matcher <= conf first_axis x)%Q)
         orthogonal_candidates /\
  find_best_match zero_matcher first_axis orthogonal_candidates = None.
Proof.
  split; [| vm_compute; reflexivity].
  repeat constructor; vm_compute; try reflexivity; discriminate.
Qed.

(** C10, amended.  When the greatest confidence among the candidates is
    positive and at or above the match threshold, [find_best_match]
    returns the earliest candidate that has it: the candidate before
    which every confidence is strictly smaller and after which none is
    greater.  A candidate takes the place of the current best only with a
    strictly greater confidence.  The candidate list follows the order of
    enrollment: a newly enrolled object comes last among the candidates
    of its class. *)
Theorem C10_find_best_match_first_of_ties
    {Image : Type} {B : Backend Image} (m : Matcher) (q : Features) :
  (forall l1 i n f l2,
     (0 < conf q (i, n, f))%Q ->
     (match_threshold m <= conf q (i, n, f))%Q ->
     Forall (fun x => (conf q x < conf q (i, n, f))%Q) l1 ->
     Forall (fun x => (conf q x <= conf q (i, n, f))%Q) l2 ->
     find_best_match m q (l1 ++ (i, n, f) :: l2)
       = Some (i, n, conf q (i, n, f))) /\
  (forall b x, consider m q b x <> b -> (best_confidence b < conf q x)%Q) /\
  (forall name cls feats frames d,
     get_remembered_object name d = None ->
     get_remembered_objects_by_class cls
       (snd (add_remembered_object name cls feats frames d))
     = get_remembered_objects_by_class cls d
         ++ [(fst (add_remembered_object name cls feats frames d),
              name, feats)]).
Proof.
  split; [| split].
  - intros l1 i n f l2. apply find_best_match_first_max.
  - intros b x. apply consider_replaces.
  - intros name cls feats frames d Hnew.
    unfold add_remembered_object. rewrite Hnew. simpl.
    unfold get_remembered_objects_by_class. simpl.
    rewrite List.filter_app, List.map_app. simpl.
    now rewrite String.eqb_refl.
Qed.

Lemma C10_find_best_match_first_of_ties_witness :
  find_best_match deep_matcher first_axis tied_candidates
    = Some (1, "house keys"%string, clip01 (dot [1; 0; 0; 0]%Q half4)).
Proof.
  destruct (C10_find_best_match_first_of_ties deep_matcher first_axis)
    as [H _].
  refine (H [] 1 "house keys"%string (DeepFeatures half4 4 (Some 5%nat))
            [(2, "car keys"%string, DeepFeatures half4 4 (Some 5%nat))]
            _ _ _ _).
  - vm_compute. reflexivity.
  - vm_compute. discriminate.
  - constructor.
  - repeat constructor. vm_compute. discriminate.
Defined.

End Claims_Memory.

(** * The embedding against the repository's own test tables

    [test/test_spatial_navigation.py] and [test/test_item_tracking.py]
    list inputs with the outputs they expect; the embedding gives the
    same outputs. *)

Section RepositoryTests.
Import ItemTracker SpatialNavigator Scenarios Props Database.

Example test_zone_detection :
  List.map (get_object_zone hallway_navigator)
    [mkBBox 50 50 150 150; mkBBox 300 50 400 150; mkBBox 500 50 600 150;
     mkBBox 50 200 150 300; mkBBox 300 200 400 300; mkBBox 500 200 600 300;
     mkBBox 50 400 150 470; mkBBox 300 400 400 470; mkBBox 500 400 600 470]
  = ["top-left"; "top"; "top-right"; "left"; "center"; "right";
     "bottom-left"; "bottom"; "bottom-right"]%string.
Proof. vm_compute. reflexivity. Qed.

Example test_distance_estimation :
  List.map (estimate_distance hallway_navigator)
    [mkBBox 0 0 640 480; mkBBox 100 100 540 380; mkBBox 200 150 440 330;
     mkBBox 250 200 390 280; mkBBox 300 240 340 260]
  = ["very-close"; "very-close"; "medium"; "far"; "far"]%string.
Proof. vm_compute. reflexivity. Qed.

Example test_clear_direction :
  List.map get_clear_direction
    [[]; ["bottom"]; ["bottom-left"]; ["bottom-right"];
     ["bottom"; "bottom-left"]; ["bottom"; "bottom-right"];
     ["bottom-left"; "bottom"; "bottom-right"]]%string
  = [Some "straight"; Some "left"; Some "right"; Some "left"; Some "right";
     Some "left"; None]%string.
Proof. vm_compute. reflexivity. Qed.

Example test_obstacle_classification :
  List.map is_obstacle
    ["person"; "chair"; "couch"; "car"; "bicycle";
     "cell phone"; "book"; "bottle"; "clock"]%string
  = [true; true; true; true; true; false; false; false; false].
Proof. vm_compute. reflexivity. Qed.

Example test_iou_calculation :
  (calculate_iou square_a square_b == 1 # 7)%Q /\
  (calculate_iou square_a square_a == 1)%Q /\
  (calculate_iou square_a (mkBBox 300 300 400 400) == 0)%Q /\
  (calculate_iou (mkBBox 50 50 300 300) square_a == 4 # 25)%Q.
Proof. repeat split; vm_compute; reflexivity. Qed.

(** Keys on a chair seen every 1.5 s: confirmed by the third call, at
    3.0 s, and stored. *)
Example test_item_tracking_simulation :
  let frames :=
    List.map (fun k : Z => ((3 * k # 2)%Q, [keys; chair])) [0; 1; 2; 3; 4] in
  List.map (List.map c_location) (fst (run frames (init empty_db)))
    = [[]; []; ["chair"%string]; []; []] /\
  get_item_location "keys" (db (snd (run frames (init empty_db))))
    = Some "chair"%string.
Proof. split; vm_compute; reflexivity. Qed.

End RepositoryTests.

(** * Further properties of the embedded code

    The rest of the file goes beyond the claims: what the functions above
    do at their edges and how they compose, and the neighbouring functions
    of the same sources. *)

Module TrackerFacts.
Import Database ItemTracker Props.

(** Box [a] lies within box [b]. *)
Definition within (a b : BBox) : Prop :=
  bx1 b <= bx1 a /\ bx2 a <= bx2 b /\ by1 b <= by1 a /\ by2 a <= by2 b.

(** The location the newest event about [item] names, if any. *)
Definition last_location (item : string) (evs : list Confirmed)
    : option string :=
  List.fold_left
    (fun acc ev => if String.eqb (c_item ev) item then Some (c_location ev)
                   else acc)
    evs None.

(** [ItemTracker.query_item_location]. *)
Definition query_item_location (item : string) (t : Tracker) : option string :=
  get_item_location item (db t).

End TrackerFacts.

Section TrackerFactsProofs.
Import Database ItemTracker Props TrackerFacts.

Lemma half_between (lo hi a b : Z) :
  lo <= a -> lo <= b -> a <= hi -> b <= hi ->
  Qle_bool (inject_Z lo) (inject_Z (a + b) / 2) = true /\
  Qle_bool (inject_Z (a + b) / 2) (inject_Z hi) = true.
Proof.
  intros H1 H2 H3 H4.
  assert (Hlo : (inject_Z (2 * lo) <= inject_Z (a + b))%Q)
    by (rewrite <- Zle_Qle; lia).
  assert (Hhi : (inject_Z (a + b) <= inject_Z (2 * hi))%Q)
    by (rewrite <- Zle_Qle; lia).
  rewrite inject_Z_mult in Hlo, Hhi.
  change (inject_Z 2) with 2%Q in Hlo, Hhi.
  split; apply Qle_bool_iff.
  - apply Qle_shift_div_l; [reflexivity |]. lra.
  - apply Qle_shift_div_r; [reflexivity |]. lra.
Qed.

(** X1.  An item whose box lies within the box of a container passes the
    containment test, whatever the IoU threshold: its centre is inside
    the container. *)
Theorem X1_is_inside_of_contained_box (thr : Q) (item container : BBox) :
  valid_box item -> within item container ->
  is_inside thr item container = true.
Proof.
  intros [Vx Vy] (W1 & W2 & W3 & W4). unfold is_inside.
  destruct (half_between (bx1 container) (bx2 container)
              (bx1 item) (bx2 item)) as [A1 A2]; try lia.
  destruct (half_between (by1 container) (by2 container)
              (by1 item) (by2 item)) as [B1 B2]; try lia.
  rewrite A1, A2, B1, B2. apply orb_true_r.
Qed.

Lemma X1_is_inside_of_contained_box_witness :
  is_inside Config.IOU_THRESHOLD (mkBBox 120 120 180 180)
            (mkBBox 100 100 300 300) = true.
Proof.
  apply X1_is_inside_of_contained_box.
  - unfold valid_box. simpl. lia.
  - unfold within. simpl. lia.
Defined.

End TrackerFactsProofs.

Section TrackerCallFacts.
Import Database ItemTracker Props TrackerFacts.

Implicit Types (p k : PairKey) (acc : Loop).

Lemma visit_events now tmo k acc (ev : Confirmed) :
  In ev (l_confirmed (visit now tmo k acc)) ->
  In ev (l_confirmed acc) \/ ev = mkConfirmed (fst k) (snd k) now.
Proof.
  unfold visit. destruct (l_state acc !! k) as [st |]; [| auto].
  destruct (Qle_bool tmo (now - start_time st) && negb (confirmed st));
    simpl; [| auto].
  intros H. apply List.in_app_or in H as [H | [H | []]]; auto.
Qed.

Lemma visits_events now tmo ks : forall acc (ev : Confirmed),
  In ev (l_confirmed (visits now tmo ks acc)) ->
  In ev (l_confirmed acc) \/
  exists k, In k ks /\ ev = mkConfirmed (fst k) (snd k) now.
Proof.
  induction ks as [| k ks IH]; intros acc ev H; [now left |].
  simpl in H. apply IH in H as [H | (k' & Hk & ->)].
  - apply visit_events in H as [H | ->]; [now left |].
    right. exists k. split; [now left | reflexivity].
  - right. exists k'. split; [now right | reflexivity].
Qed.

Lemma frame_pairs_classes (t : Tracker) ds (a b : string) :
  In (a, b) (frame_pairs t ds) ->
  str_in a item_classes = true /\ str_in b container_classes = true.
Proof.
  unfold frame_pairs, inside_pairs. rewrite List.in_flat_map.
  intros (item & Hitem & H). apply List.in_map_iff in H as (c & [= <- <-] & Hc).
  apply List.filter_In in Hitem as [_ Hi].
  apply List.filter_In in Hc as [Hc _].
  apply List.filter_In in Hc as [_ Hc]. auto.
Qed.

(** X2.  Every event a call of [update_tracking] returns is about a pair
    that passes the containment test on this very frame, names one of
    the trackable item classes with one of the container classes, and
    carries the time of the call. *)
Theorem X2_update_tracking_events_are_active_pairs
    now ds (t : Tracker) (ev : Confirmed) :
  In ev (fst (update_tracking now ds t)) ->
  In (c_item ev, c_location ev) (frame_pairs t ds) /\
  str_in (c_item ev) item_classes = true /\
  str_in (c_location ev) container_classes = true /\
  c_timestamp ev = now.
Proof.
  rewrite update_tracking_unfold. cbn [fst]. intros H.
  apply visits_events in H as [[] | (k & Hk & ->)]. cbn [c_item c_location].
  destruct k as [a b]. cbn [fst snd c_timestamp].
  destruct (frame_pairs_classes t ds a b Hk). auto.
Qed.

Lemma visit_keeps now tmo k p acc :
  is_Some (l_state acc !! p) -> is_Some (l_state (visit now tmo k acc) !! p).
Proof.
  intros H. unfold visit. destruct (l_state acc !! k) as [st |] eqn:E.
  - destruct (Qle_bool tmo (now - start_time st) && negb (confirmed st));
      simpl; [| exact H].
    destruct (decide (k = p)) as [-> | Hne];
      [rewrite lookup_insert_eq; eauto | now rewrite lookup_insert_ne].
  - simpl. destruct (decide (k = p)) as [-> | Hne];
      [rewrite lookup_insert_eq; eauto | now rewrite lookup_insert_ne].
Qed.

Lemma visit_enters now tmo p acc :
  is_Some (l_state (visit now tmo p acc) !! p).
Proof.
  unfold visit. destruct (l_state acc !! p) as [st |] eqn:E.
  - destruct (Qle_bool tmo (now - start_time st) && negb (confirmed st));
      simpl; [rewrite lookup_insert_eq | rewrite E]; eauto.
  - simpl. rewrite lookup_insert_eq. eauto.
Qed.

Lemma visits_keeps now tmo ks : forall p acc,
  is_Some (l_state acc !! p) ->
  is_Some (l_state (visits now tmo ks acc) !! p).
Proof.
  induction ks as [| k ks IH]; intros p acc H; [exact H |].
  simpl. apply IH. now apply visit_keeps.
Qed.

Lemma visits_enters now tmo ks : forall p acc,
  In p ks -> is_Some (l_state (visits now tmo ks acc) !! p).
Proof.
  induction ks as [| k ks IH]; intros p acc H; [destruct H |].
  simpl. destruct H as [-> | H]; [| now apply IH].
  apply visits_keeps. apply visit_enters.
Qed.

(** X3.  After a call of [update_tracking] the tracked pairs are exactly
    the pairs that pass the containment test on this frame: a pair is
    tracked from its first frame on, and whatever was tracked before and
    is not seen now is gone.  A frame that shows no item, or no
    container, empties the tracking state. *)
Theorem X3_update_tracking_tracks_the_active_pairs now ds (t : Tracker) :
  (forall p,
     is_Some (tracking_state (snd (update_tracking now ds t)) !! p) <->
     In p (frame_pairs t ds)) /\
  (frame_pairs t ds = [] ->
   tracking_state (snd (update_tracking now ds t)) = ∅ /\
   fst (update_tracking now ds t) = []).
Proof.
  assert (Hmain : forall p,
    is_Some (tracking_state (snd (update_tracking now ds t)) !! p) <->
    In p (frame_pairs t ds)).
  { intros p. rewrite update_tracking_unfold.
    set (acc0 := mkLoop ∅ (tracking_state t) [] (db t)).
    set (acc := visits now (timeout t) (frame_pairs t ds) acc0).
    cbn [snd tracking_state]. rewrite set_fold_delete.
    assert (Hact : p ∈ l_active acc <-> In p (frame_pairs t ds)).
    { subst acc. rewrite visits_active. simpl. set_solver. }
    destruct (decide (p ∈ dom (l_state acc) ∖ l_active acc)) as [Hin | Hout].
    - apply elem_of_difference in Hin as [_ Hn]. split.
      + intros [x Hx]. discriminate.
      + intros H. exfalso. apply Hn. now apply Hact.
    - split.
      + intros Hs. apply Hact.
        destruct (decide (p ∈ l_active acc)) as [|Hn]; [assumption |].
        exfalso. apply Hout. apply elem_of_difference.
        split; [now apply elem_of_dom | exact Hn].
      + intros H. now apply visits_enters. }
  split; [exact Hmain |].
  intros Hnil. split.
  - apply map_eq. intros p. rewrite lookup_empty.
    destruct (tracking_state (snd (update_tracking now ds t)) !! p) eqn:E;
      [| reflexivity].
    assert (Hs : is_Some (tracking_state (snd (update_tracking now ds t)) !! p))
      by (rewrite E; eauto).
    apply Hmain in Hs. rewrite Hnil in Hs. destruct Hs.
  - rewrite update_tracking_unfold, Hnil. reflexivity.
Qed.

Lemma replay_snoc (evs : list Confirmed) (ev : Confirmed) (d : VisionMateDB) :
  replay (evs ++ [ev]) d
    = update_item_location (c_item ev) (c_location ev) (replay evs d).
Proof. unfold replay. now rewrite List.fold_left_app. Qed.

Lemma last_location_snoc (item : string) (evs : list Confirmed)
    (ev : Confirmed) :
  last_location item (evs ++ [ev])
    = if String.eqb (c_item ev) item then Some (c_location ev)
      else last_location item evs.
Proof. unfold last_location. now rewrite List.fold_left_app. Qed.

Lemma replay_lookup (item : string) (evs : list Confirmed) (d : VisionMateDB) :
  get_item_location item (replay evs d)
    = match last_location item evs with
      | Some location => Some location
      | None => get_item_location item d
      end.
Proof.
  induction evs as [| ev evs IH] using List.rev_ind; [reflexivity |].
  rewrite replay_snoc, last_location_snoc.
  unfold get_item_location, update_item_location in *. cbn [item_locations].
  destruct (String.eqb_spec (c_item ev) item) as [-> | Hne].
  - now rewrite lookup_insert_eq.
  - rewrite lookup_insert_ne by exact Hne. exact IH.
Qed.

(** X4.  Asking the tracker for an item right after a call of
    [update_tracking] gives the container of the newest event of that
    call about the item; if the call confirmed nothing about the item,
    the answer is what it was before the call. *)
Theorem X4_query_after_update_tracking now ds (t : Tracker) (item : string) :
  query_item_location item (snd (update_tracking now ds t))
    = match last_location item (fst (update_tracking now ds t)) with
      | Some location => Some location
      | None => query_item_location item t
      end.
Proof.
  unfold query_item_location. rewrite update_tracking_db. apply replay_lookup.
Qed.

End TrackerCallFacts.

Lemma X2_update_tracking_events_are_active_pairs_witness :
  str_in "keys" ItemTracker.item_classes = true /\
  str_in "chair" ItemTracker.container_classes = true.
Proof.
  destruct (X2_update_tracking_events_are_active_pairs (6 # 2)%Q
              [Scenarios.keys; Scenarios.chair]
              (snd (Props.run (List.firstn 6 Scenarios.keys_frames)
                      (ItemTracker.init Database.empty_db)))
              (Props.confirmation Scenarios.keys_on_chair (6 # 2)%Q))
    as (_ & H1 & H2 & _).
  - vm_compute. left. reflexivity.
  - split; assumption.
Defined.

(** ** The remembered-objects table *)

Module DatabaseFacts.
Import Database.

(** What the constraints of [remembered_objects] guarantee: names are
    unique, ids are unique, positive and not above the [AUTOINCREMENT]
    counter. *)
Definition consistent (d : VisionMateDB) : Prop :=
  NoDup (List.map ro_custom_name (remembered_objects d)) /\
  NoDup (List.map ro_id (remembered_objects d)) /\
  Forall (fun r => 0 < ro_id r <= ro_seq d) (remembered_objects d) /\
  0 <= ro_seq d.

(** [get_all_remembered_objects]. *)
Definition get_all_remembered_objects (d : VisionMateDB)
    : list (Z * string * string) :=
  List.map (fun r => (ro_id r, ro_custom_name r, ro_yolo_class r))
           (remembered_objects d).

End DatabaseFacts.

Section DatabaseFactsProofs.
Import Database DatabaseFacts.

Lemma find_name_none (name : string) (rows : list RememberedObject) :
  List.find (fun r => String.eqb (ro_custom_name r) name) rows = None <->
  ~ In name (List.map ro_custom_name rows).
Proof.
  induction rows as [| r rows IH]; simpl; [tauto |].
  destruct (String.eqb_spec (ro_custom_name r) name) as [E | E].
  - split; [discriminate | intros H; exfalso; apply H; now left].
  - rewrite IH. tauto.
Qed.

Lemma find_name_app (name : string) (rows more : list RememberedObject) :
  List.find (fun r => String.eqb (ro_custom_name r) name) (rows ++ more)
    = match List.find (fun r => String.eqb (ro_custom_name r) name) rows with
      | Some r => Some r
      | None => List.find (fun r => String.eqb (ro_custom_name r) name) more
      end.
Proof.
  induction rows as [| r rows IH]; simpl; [reflexivity |].
  destruct (String.eqb (ro_custom_name r) name); [reflexivity | exact IH].
Qed.

(** X5.  [add_remembered_object] refuses a name that is already stored:
    it returns -1 and changes nothing.  For a new name it returns the
    next row id, after which the object can be read back under its name
    with exactly the class, features and frame count given; every other
    name reads as before, and the item locations are untouched. *)
Theorem X5_add_remembered_object_round_trip
    (name cls : string) (feats : Features) (frames : nat) (d : VisionMateDB) :
  (forall r, get_remembered_object name d = Some r ->
     add_remembered_object name cls feats frames d = (-1, d)) /\
  (get_remembered_object name d = None ->
   let d' := snd (add_remembered_object name cls feats frames d) in
   fst (add_remembered_object name cls feats frames d) = ro_seq d + 1 /\
   get_remembered_object name d'
     = Some (mkRemembered (ro_seq d + 1) name cls feats frames) /\
   (forall other, other <> name ->
      get_remembered_object other d' = get_remembered_object other d) /\
   item_locations d' = item_locations d).
Proof.
  split.
  - intros r H. unfold add_remembered_object. now rewrite H.
  - intros H d'. subst d'. unfold add_remembered_object. rewrite H.
    cbn [fst snd]. split; [reflexivity |].
    unfold get_remembered_object in *. cbn [remembered_objects item_locations].
    split; [| split; [| reflexivity]].
    + rewrite find_name_app, H. simpl. now rewrite String.eqb_refl.
    + intros other Hne. rewrite find_name_app.
      destruct (List.find (fun r => String.eqb (ro_custom_name r) other)
                          (remembered_objects d)); [reflexivity |].
      simpl. destruct (String.eqb_spec name other); [congruence | reflexivity].
Qed.

Lemma X5_add_remembered_object_round_trip_witness :
  add_remembered_object "house keys" "keys" Scenarios.first_axis 3
    Scenarios.keys_db = (-1, Scenarios.keys_db) /\
  fst (add_remembered_object "work wallet" "wallet" Scenarios.first_axis 3
         Scenarios.keys_db) = 3.
Proof.
  split.
  - destruct (X5_add_remembered_object_round_trip "house keys" "keys"
                Scenarios.first_axis 3 Scenarios.keys_db) as [H _].
    exact (H _ eq_refl).
  - destruct (X5_add_remembered_object_round_trip "work wallet" "wallet"
                Scenarios.first_axis 3 Scenarios.keys_db) as [_ H].
    exact (proj1 (H eq_refl)).
Defined.

Lemma add_remembered_object_consistent
    (name cls : string) (feats : Features) (frames : nat) (d : VisionMateDB) :
  consistent d ->
  consistent (snd (add_remembered_object name cls feats frames d)).
Proof.
  intros (Hn & Hi & Hr & Hs). unfold add_remembered_object.
  destruct (get_remembered_object name d) eqn:E; [repeat split; assumption |].
  cbn [snd]. unfold consistent. cbn [remembered_objects ro_seq].
  rewrite !List.map_app. cbn [List.map ro_custom_name ro_id].
  apply find_name_none in E.
  split; [| split; [| split]].
  - apply NoDup_app. split; [exact Hn |]. split.
    + intros x Hx Hx'. apply list_elem_of_In in Hx.
      apply list_elem_of_In in Hx' as [-> | []]. contradiction.
    + apply NoDup_singleton.
  - apply NoDup_app. split; [exact Hi |]. split.
    + intros x Hx Hx'. apply list_elem_of_In in Hx.
      apply list_elem_of_In in Hx' as [<- | []].
      apply List.in_map_iff in Hx as (r & Hid & Hin).
      rewrite List.Forall_forall in Hr. specialize (Hr r Hin). lia.
    + apply NoDup_singleton.
  - apply List.Forall_app. split.
    + eapply List.Forall_impl; [| exact Hr]. intros r Hrr. simpl in Hrr. lia.
    + constructor; [simpl; lia | constructor].
  - lia.
Qed.

(** X6.  Adding objects keeps the table consistent: names stay unique,
    row ids stay unique and positive, and no id exceeds the counter --
    whether the insertion goes through or is refused. *)
Theorem X6_add_remembered_object_keeps_consistency
    (name cls : string) (feats : Features) (frames : nat) (d : VisionMateDB) :
  consistent d ->
  consistent (snd (add_remembered_object name cls feats frames d)).
Proof. apply add_remembered_object_consistent. Qed.

Lemma X6_add_remembered_object_keeps_consistency_witness :
  consistent
    (snd (add_remembered_object "work wallet" "wallet" Scenarios.first_axis 3
            Scenarios.keys_db)).
Proof.
  apply X6_add_remembered_object_keeps_consistency.
  unfold consistent, Scenarios.keys_db. simpl.
  split; [| split; [| split]].
  - apply (bool_decide_unpack _). vm_compute. exact I.
  - apply (bool_decide_unpack _). vm_compute. exact I.
  - repeat constructor; simpl; lia.
  - lia.
Defined.

End DatabaseFactsProofs.

(** ** Enrollment sessions *)

Module EnrollmentFacts.
Import Database VisualMatcher ObjectMemory.

Section Defs.
Context {Image : Type} {B : Backend Image}.

(** [add_enrollment_frame] called once per frame of the list; the counts
    it returns are collected. *)
Fixpoint add_frames (fs : list (Image * BBox)) (om : @Memory Image)
    : option (list nat * @Memory Image) :=
  match fs with
  | [] => Some ([], om)
  | (image, b) :: rest =>
      match add_enrollment_frame image b om with
      | None => None
      | Some (n, om1) =>
          match add_frames rest om1 with
          | None => None
          | Some (ns, om2) => Some (n :: ns, om2)
          end
      end
  end.

(** The descriptors the detector finds on the frames, frame after
    frame. *)
Definition frame_descriptors (frames : list (Image * BBox))
    : list (list Z) :=
  List.flat_map
    (fun ib => match descriptors (detect_and_compute (fst ib) (snd ib)) with
               | Some d => d
               | None => []
               end)
    frames.

End Defs.

End EnrollmentFacts.

Section EnrollmentFactsProofs.
Import Database DatabaseFacts VisualMatcher ObjectMemory Props EnrollmentFacts.
Context {Image : Type} {B : Backend Image}.

Implicit Types (om : @Memory Image) (fs : list (Image * BBox)).

Lemma add_frames_started fs : forall om name,
  custom_name (enrollment_buffer om) = Some name ->
  add_frames fs om =
    Some (List.seq (S (length (images (enrollment_buffer om)))) (length fs),
          mkMemory (db om) (matcher om)
            (mkBuffer (images (enrollment_buffer om) ++ List.map fst fs)
                      (bboxes (enrollment_buffer om) ++ List.map snd fs)
                      (yolo_class (enrollment_buffer om))
                      (Some name))).
Proof.
  induction fs as [| [image b] fs IH]; intros om name Hn.
  - simpl. rewrite !app_nil_r. destruct om as [d m [imgs bs y c]].
    simpl in Hn. now subst c.
  - cbn [add_frames]. unfold add_enrollment_frame. rewrite Hn.
    erewrite IH by (cbn [enrollment_buffer custom_name]; reflexivity).
    cbn [enrollment_buffer images bboxes yolo_class custom_name db matcher
         List.map fst snd length List.seq].
    rewrite !List.length_app. cbn [length].
    rewrite <- !app_assoc. cbn [app].
    replace (length (images (enrollment_buffer om)) + 1)%nat
      with (S (length (images (enrollment_buffer om)))) by lia.
    reflexivity.
Qed.

(** X9.  After [start_enrollment] has accepted a name, the calls of
    [add_enrollment_frame] return 1, 2, 3, ... and the buffer holds the
    frames and their boxes in the order given -- nothing of an earlier,
    unfinished enrollment is left in it, and the datastore is not
    touched.  Without a started enrollment the first call raises. *)
Theorem X9_add_enrollment_frame_counts om (name cls : string) fs :
  (forall om1,
     start_enrollment name cls om = Some om1 ->
     add_frames fs om1 =
       Some (List.seq 1 (length fs),
             mkMemory (db om) (matcher om)
               (mkBuffer (List.map fst fs) (List.map snd fs)
                         (Some cls) (Some name)))) /\
  (custom_name (enrollment_buffer om) = None ->
   forall image b, add_frames ((image, b) :: fs) om = None).
Proof.
  split.
  - intros om1. unfold start_enrollment.
    destruct (get_remembered_object name (db om)); [discriminate |].
    intros [= <-]. erewrite add_frames_started by reflexivity. reflexivity.
  - intros Hn image b. cbn [add_frames]. unfold add_enrollment_frame.
    now rewrite Hn.
Qed.

(** X8.  A call of [finish_enrollment] that returns false changes
    nothing at all: no row is written, and the buffered frames stay in
    the buffer.  (Row ids are positive, so the counter is not
    negative.) *)
Theorem X8_failed_finish_enrollment_changes_nothing om :
  0 <= ro_seq (db om) ->
  fst (fst (finish_enrollment om)) = false ->
  snd (finish_enrollment om) = om.
Proof.
  intros Hs. unfold finish_enrollment.
  destruct (custom_name (enrollment_buffer om)) as [name |]; [| reflexivity].
  destruct (length (images (enrollment_buffer om)) <? 1)%nat; [reflexivity |].
  destruct (negb (valid_features _)); [reflexivity |].
  destruct (yolo_class (enrollment_buffer om)) as [cls |].
  - unfold add_remembered_object.
    destruct (get_remembered_object name (db om)).
    + cbn. intros _. now destruct om.
    + destruct (Z.ltb_spec 0 (ro_seq (db om) + 1)); [discriminate | lia].
  - cbn. intros _. now destruct om.
Qed.

(** X7.  A call of [finish_enrollment] that returns true has stored the
    object under the name of the session, with the number of buffered
    frames as its frame count, and has emptied the buffer; from then on
    [start_enrollment] refuses that name. *)
Theorem X7_enrolled_name_cannot_be_enrolled_again om (name : string) :
  custom_name (enrollment_buffer om) = Some name ->
  fst (fst (finish_enrollment om)) = true ->
  let om' := snd (finish_enrollment om) in
  (exists r, get_remembered_object name (db om') = Some r /\
             ro_custom_name r = name /\
             yolo_class (enrollment_buffer om) = Some (ro_yolo_class r) /\
             ro_enrollment_frames r
               = length (images (enrollment_buffer om))) /\
  enrollment_buffer om' = empty_buffer /\
  (forall cls, start_enrollment name cls om' = None).
Proof.
  intros Hn Hok om'.
  assert (H : exists r, get_remembered_object name (db om') = Some r /\
             ro_custom_name r = name /\
             yolo_class (enrollment_buffer om) = Some (ro_yolo_class r) /\
             ro_enrollment_frames r
               = length (images (enrollment_buffer om)) /\
             enrollment_buffer om' = empty_buffer).
  { subst om'. revert Hok. unfold finish_enrollment. rewrite Hn.
    destruct (length (images (enrollment_buffer om)) <? 1)%nat;
      [discriminate |].
    destruct (negb (valid_features _)); [discriminate |].
    destruct (yolo_class (enrollment_buffer om)) as [cls |];
      [| discriminate].
    unfold add_remembered_object.
    destruct (get_remembered_object name (db om)) eqn:E; [discriminate |].
    destruct (0 <? ro_seq (db om) + 1); [| discriminate]. intros _.
    cbn [snd db enrollment_buffer].
    eexists. split.
    - unfold get_remembered_object in *. cbn [remembered_objects].
      rewrite find_name_app, E. simpl. now rewrite String.eqb_refl.
    - cbn. auto. }
  destruct H as (r & Hr & H1 & H2 & H3 & H4).
  split; [exists r; auto |]. split; [exact H4 |].
  intros cls. unfold start_enrollment. now rewrite Hr.
Qed.

End EnrollmentFactsProofs.

(** The chair leaves the picture after two frames of keys on it: the
    pair is dropped at once. *)
Lemma X3_update_tracking_tracks_the_active_pairs_witness :
  ItemTracker.tracking_state
    (snd (ItemTracker.update_tracking 1 [Scenarios.keys]
            (snd (Props.run (List.firstn 2 Scenarios.keys_frames)
                    (ItemTracker.init Database.empty_db))))) = ∅.
Proof.
  destruct (X3_update_tracking_tracks_the_active_pairs 1 [Scenarios.keys]
              (snd (Props.run (List.firstn 2 Scenarios.keys_frames)
                      (ItemTracker.init Database.empty_db))))
    as [_ H].
  apply H. vm_compute. reflexivity.
Defined.

Module EnrollmentScenarios.
Import ObjectMemory.

(** "work wallet" being enrolled with the deep matcher, one frame
    buffered. *)
Definition wallet_session : @Memory ExampleImage :=
  mkMemory Scenarios.keys_db Scenarios.deep_matcher
    (mkBuffer [Scenarios.keys_frame] [Scenarios.keys_box]
       (Some "wallet"%string) (Some "work wallet"%string)).

End EnrollmentScenarios.

Lemma X7_enrolled_name_cannot_be_enrolled_again_witness :
  ObjectMemory.start_enrollment "work wallet" "purse"
    (snd (ObjectMemory.finish_enrollment
            (B := ObjectMemory.example_backend)
            EnrollmentScenarios.wallet_session)) = None.
Proof.
  destruct (X7_enrolled_name_cannot_be_enrolled_again
              (B := ObjectMemory.example_backend)
              EnrollmentScenarios.wallet_session "work wallet")
    as (_ & _ & H).
  - reflexivity.
  - vm_compute. reflexivity.
  - apply H.
Defined.

Lemma X8_failed_finish_enrollment_changes_nothing_witness :
  snd (ObjectMemory.finish_enrollment
         (B := ObjectMemory.example_backend) Scenarios.wallet_enrollment)
  = Scenarios.wallet_enrollment.
Proof.
  apply (X8_failed_finish_enrollment_changes_nothing
           (B := ObjectMemory.example_backend) Scenarios.wallet_enrollment).
  - vm_compute. discriminate.
  - vm_compute. reflexivity.
Defined.

Lemma X9_add_enrollment_frame_counts_witness :
  exists om,
    EnrollmentFacts.add_frames
      [(Scenarios.keys_frame, Scenarios.keys_box);
       (Scenarios.blank_frame, Scenarios.keys_box)]
      (ObjectMemory.mkMemory Scenarios.keys_db Scenarios.deep_matcher
         (ObjectMemory.mkBuffer [] [] (Some "wallet"%string)
            (Some "work wallet"%string)))
    = Some ([1; 2]%nat, om).
Proof.
  eexists.
  apply (proj1 (X9_add_enrollment_frame_counts Scenarios.keys_memory
                  "work wallet" "wallet"
                  [(Scenarios.keys_frame, Scenarios.keys_box);
                   (Scenarios.blank_frame, Scenarios.keys_box)])).
  vm_compute. reflexivity.
Defined.

(** ** Sightings of remembered objects *)

Module Sightings.
Import Database.

(** The context dictionary [update_object_sighting] builds: each of its
    two keys is present or not. *)
Record Context := mkContext {
  nearby_objects : option (list string);
  screenshot_saved : option bool
}.

(** Truth value of the dictionary: false when it has no key. *)
Definition context_truthy (c : Context) : bool :=
  match nearby_objects c, screenshot_saved c with
  | None, None => false
  | _, _ => true
  end.

(** One row of [object_sightings], as [get_latest_sighting] returns
    it. *)
Record Sighting := mkSighting {
  s_location : option string;
  s_gps_lat : option Q;
  s_gps_lon : option Q;
  s_context : option Context;
  s_confidence : Q;
  s_timestamp : Q
}.

(** The datastore with the [object_sightings] table beside the others;
    the table has [UNIQUE(object_id)], so it is a map from object id to
    row.  (Foreign keys are not enforced by the connection.) *)
Record Store := mkStore {
  tables : VisionMateDB;
  object_sightings : gmap Z Sighting
}.

(** [INSERT ... ON CONFLICT(object_id) DO UPDATE]; [now] is
    [datetime.now()]. *)
Definition add_object_sighting (object_id : Z) (location : option string)
    (gps_lat gps_lon : option Q) (context : option Context)
    (confidence : Q) (now : Q) (s : Store) : Store :=
  let context_str :=
    match context with
    | Some c => if context_truthy c then Some c else None
    | None => None
    end in
  mkStore (tables s)
    (<[object_id :=
         mkSighting location gps_lat gps_lon context_str confidence now]>
       (object_sightings s)).

Definition get_latest_sighting (object_id : Z) (s : Store)
    : option Sighting :=
  object_sightings s !! object_id.

Definition get_sighting_by_name (custom_name : string) (s : Store)
    : option Sighting :=
  match get_remembered_object custom_name (tables s) with
  | None => None
  | Some obj => get_latest_sighting (ro_id obj) s
  end.

(** Both [DELETE]s select by the id of the row found under the name. *)
Definition delete_remembered_object (custom_name : string) (s : Store)
    : bool * Store :=
  match get_remembered_object custom_name (tables s) with
  | None => (false, s)
  | Some obj =>
      let obj_id := ro_id obj in
      (true,
       mkStore
         (mkDB (item_locations (tables s))
               (List.filter (fun r => negb (ro_id r =? obj_id))
                            (remembered_objects (tables s)))
               (ro_seq (tables s)))
         (delete obj_id (object_sightings s)))
  end.

(** The methods of [ObjectMemory] on top of these; they use nothing of
    the object but its datastore.  [image] tells whether a frame was
    passed. *)
Definition update_object_sighting (custom_name : string) (image : bool)
    (location : option string) (gps_lat gps_lon : option Q)
    (nearby : option (list string)) (confidence : Q) (now : Q)
    (s : Store) : bool * Store :=
  match get_remembered_object custom_name (tables s) with
  | None => (false, s)
  | Some obj =>
      let context :=
        mkContext
          (match nearby with
           | Some (o :: os) => Some (o :: os)
           | _ => None
           end)
          (if image then Some false else None) in
      (true,
       add_object_sighting (ro_id obj) location gps_lat gps_lon
         (if context_truthy context then Some context else None)
         confidence now s)
  end.

Definition get_object_location (custom_name : string) (s : Store)
    : option Sighting :=
  get_sighting_by_name custom_name s.

Definition list_remembered_objects (s : Store) : list (string * string) :=
  List.map (fun '(_, name, yolo_class) => (name, yolo_class))
    (DatabaseFacts.get_all_remembered_objects (tables s)).

Definition delete_object (custom_name : string) (s : Store)
    : bool * Store :=
  delete_remembered_object custom_name s.

(** The store after an enrollment has written to the tables. *)
Definition enrolled (custom_name yolo_class : string)
    (visual_features : Features) (enrollment_frames : nat) (s : Store)
    : Store :=
  mkStore
    (snd (add_remembered_object custom_name yolo_class visual_features
            enrollment_frames (tables s)))
    (object_sightings s).

(** Every sighting belongs to a stored object, and the tables are
    consistent. *)
Definition store_ok (s : Store) : Prop :=
  DatabaseFacts.consistent (tables s) /\
  forall id, is_Some (object_sightings s !! id) ->
             In id (List.map ro_id (remembered_objects (tables s))).

End Sightings.

Section SightingsProofs.
Import Database DatabaseFacts Sightings.

Lemma find_name_some (name : string) (rows : list RememberedObject) r :
  List.find (fun r => String.eqb (ro_custom_name r) name) rows = Some r ->
  In r rows /\ ro_custom_name r = name.
Proof.
  intros H. apply List.find_some in H as [H1 H2].
  split; [exact H1 | now apply String.eqb_eq].
Qed.

Lemma NoDup_map_inj_in {A C : Type} (f : A -> C) (l : list A) a b :
  NoDup (List.map f l) -> In a l -> In b l -> f a = f b -> a = b.
Proof.
  induction l as [| x l IH]; simpl; [tauto |].
  intros Hnd. apply NoDup_cons in Hnd as [Hx Hnd].
  intros [-> | Ha] [-> | Hb] E; auto.
  - exfalso. apply Hx. rewrite E. apply list_elem_of_In.
    now apply List.in_map.
  - exfalso. apply Hx. rewrite <- E. apply list_elem_of_In.
    now apply List.in_map.
Qed.

Lemma NoDup_map_filter {A C : Type} (f : A -> C) (q : A -> bool)
    (l : list A) :
  NoDup (List.map f l) -> NoDup (List.map f (List.filter q l)).
Proof.
  induction l as [| x l IH]; simpl; [auto |].
  intros Hnd. apply NoDup_cons in Hnd as [Hx Hnd].
  destruct (q x); [| auto]. simpl. apply NoDup_cons. split; [| auto].
  intros H. apply Hx. apply list_elem_of_In in H. apply list_elem_of_In.
  apply List.in_map_iff in H as (y & <- & Hy).
  apply List.filter_In in Hy as [Hy _]. now apply List.in_map.
Qed.

Lemma find_filter_same {A : Type} (p q : A -> bool) (l : list A) :
  (forall x, In x l -> p x = true -> q x = true) ->
  List.find p (List.filter q l) = List.find p l.
Proof.
  induction l as [| x l IH]; simpl; [reflexivity |].
  intros H. destruct (q x) eqn:Q; simpl.
  - destruct (p x); [reflexivity |]. apply IH. auto.
  - destruct (p x) eqn:P.
    + rewrite (H x (or_introl eq_refl) P) in Q. discriminate.
    + apply IH. auto.
Qed.

(** With unique names and ids, the row of one name and the row of
    another have different ids. *)
Lemma other_name_other_id (d : VisionMateDB) (name other : string) r r' :
  consistent d ->
  get_remembered_object name d = Some r ->
  get_remembered_object other d = Some r' ->
  other <> name ->
  ro_id r' <> ro_id r.
Proof.
  intros (_ & Hi & _) H H' Hne E.
  apply find_name_some in H as [Hin Hn].
  apply find_name_some in H' as [Hin' Hn'].
  apply Hne. rewrite <- Hn, <- Hn'. f_equal.
  eapply NoDup_map_inj_in; eauto.
Qed.

(** X10.  [update_object_sighting] refuses an unknown name and changes
    nothing.  For a stored object it keeps one sighting per object: the
    location then reported for the name is the one just given, whatever
    was recorded before; an empty list of nearby objects and no frame
    give no context at all.  The sightings of all other names and the
    tables stay as they were. *)
Theorem X10_update_object_sighting_latest_wins
    (name : string) (image : bool) (location : option string)
    (lat lon : option Q) (nearby : option (list string)) (conf now : Q)
    (s : Store) :
  consistent (tables s) ->
  (get_remembered_object name (tables s) = None ->
   update_object_sighting name image location lat lon nearby conf now s
     = (false, s)) /\
  (is_Some (get_remembered_object name (tables s)) ->
   let s' := snd (update_object_sighting name image location lat lon
                    nearby conf now s) in
   fst (update_object_sighting name image location lat lon nearby conf
          now s) = true /\
   (exists c,
      get_object_location name s'
        = Some (mkSighting location lat lon c conf now) /\
      (c = None <->
       (nearby = None \/ nearby = Some []) /\ image = false)) /\
   (forall other, other <> name ->
      get_object_location other s' = get_object_location other s) /\
   tables s' = tables s).
Proof.
  intros Hc. split.
  - intros H. unfold update_object_sighting. now rewrite H.
  - intros [r Hr] s'. subst s'. unfold update_object_sighting.
    rewrite Hr. cbn [fst snd]. split; [reflexivity |].
    split; [| split; [| reflexivity]].
    + eexists. split.
      * unfold get_object_location, get_sighting_by_name,
          add_object_sighting, get_latest_sighting.
        cbn [tables object_sightings]. rewrite Hr.
        rewrite lookup_insert_eq. reflexivity.
      * destruct nearby as [[| o os] |], image; cbn;
          (split; [intros H; try discriminate H; auto
                  | intros [[H | H] H']; try discriminate; reflexivity]).
    + intros other Hne.
      unfold get_object_location, get_sighting_by_name,
        add_object_sighting, get_latest_sighting.
      cbn [tables object_sightings].
      destruct (get_remembered_object other (tables s)) as [r' |] eqn:Hr';
        [| reflexivity].
      apply lookup_insert_ne. intros E.
      exact (other_name_other_id _ _ _ _ _ Hc Hr Hr' Hne (eq_sym E)).
Qed.

End SightingsProofs.

Section SightingsInvariant.
Import Database DatabaseFacts Sightings.

Lemma deleted_name_gone (d : VisionMateDB) (name : string) r :
  consistent d ->
  get_remembered_object name d = Some r ->
  List.find (fun x => String.eqb (ro_custom_name x) name)
    (List.filter (fun x => negb (ro_id x =? ro_id r))
                 (remembered_objects d)) = None.
Proof.
  intros (Hn & _) H. apply find_name_some in H as [Hin Hname].
  apply find_name_none. intros Hx.
  apply List.in_map_iff in Hx as (y & Hy & Hyin).
  apply List.filter_In in Hyin as [Hyin Hid].
  assert (y = r) as ->
    by (eapply NoDup_map_inj_in; eauto; congruence).
  rewrite Z.eqb_refl in Hid. discriminate.
Qed.

Lemma deleted_keeps_others (d : VisionMateDB) (name other : string) r :
  consistent d ->
  get_remembered_object name d = Some r ->
  other <> name ->
  List.find (fun x => String.eqb (ro_custom_name x) other)
    (List.filter (fun x => negb (ro_id x =? ro_id r))
                 (remembered_objects d))
  = get_remembered_object other d.
Proof.
  intros Hc H Hne. apply find_filter_same. intros x Hx Hp.
  apply String.eqb_eq in Hp.
  destruct (Z.eqb_spec (ro_id x) (ro_id r)) as [E | E]; [| reflexivity].
  exfalso. destruct Hc as (_ & Hi & _).
  apply find_name_some in H as [Hin Hname].
  assert (x = r) by (eapply NoDup_map_inj_in; eauto). congruence.
Qed.

Lemma delete_consistent (d : VisionMateDB) (id : Z) :
  consistent d ->
  consistent
    (mkDB (item_locations d)
          (List.filter (fun x => negb (ro_id x =? id)) (remembered_objects d))
          (ro_seq d)).
Proof.
  intros (Hn & Hi & Hr & Hs). unfold consistent.
  cbn [remembered_objects ro_seq].
  split; [| split; [| split]]; try now apply NoDup_map_filter.
  - rewrite List.Forall_forall in *. intros x Hx.
    apply List.filter_In in Hx as [Hx _]. auto.
  - exact Hs.
Qed.

(** X11.  [delete_object] returns true exactly for a stored name; a
    refused call changes nothing.  Afterwards the name is not stored and
    has no location.  Every other object, and its sighting, is as
    before, and the id counter is not wound back, so the id of the
    deleted row is not given out again. *)
Theorem X11_delete_object_forgets_object_and_sighting
    (name : string) (s : Store) :
  consistent (tables s) ->
  let s' := snd (delete_object name s) in
  (fst (delete_object name s) = true <->
   is_Some (get_remembered_object name (tables s))) /\
  (fst (delete_object name s) = false -> s' = s) /\
  get_remembered_object name (tables s') = None /\
  get_object_location name s' = None /\
  (forall other, other <> name ->
     get_remembered_object other (tables s')
       = get_remembered_object other (tables s) /\
     get_object_location other s' = get_object_location other s) /\
  ro_seq (tables s') = ro_seq (tables s).
Proof.
  intros Hc s'. subst s'. unfold delete_object, delete_remembered_object.
  destruct (get_remembered_object name (tables s)) as [r |] eqn:Hr;
    cbn [fst snd].
  - assert (Hgone : get_remembered_object name
                      (mkDB (item_locations (tables s))
                         (List.filter (fun x => negb (ro_id x =? ro_id r))
                            (remembered_objects (tables s)))
                         (ro_seq (tables s))) = None)
      by (apply (deleted_name_gone _ name); assumption).
    split; [split; [intros _; eauto | reflexivity] |].
    split; [discriminate |]. split; [exact Hgone |].
    split; [| split; [| reflexivity]].
    + unfold get_object_location, get_sighting_by_name. cbn [tables].
      now rewrite Hgone.
    + intros other Hne.
      assert (Hsame : get_remembered_object other
                        (mkDB (item_locations (tables s))
                           (List.filter (fun x => negb (ro_id x =? ro_id r))
                              (remembered_objects (tables s)))
                           (ro_seq (tables s)))
                      = get_remembered_object other (tables s))
        by (apply (deleted_keeps_others _ name); assumption).
      split; [exact Hsame |].
      unfold get_object_location, get_sighting_by_name. cbn [tables].
      rewrite Hsame.
      destruct (get_remembered_object other (tables s)) as [r' |] eqn:Hr';
        [| reflexivity].
      unfold get_latest_sighting. cbn [object_sightings].
      apply lookup_delete_ne. intros E.
      exact (other_name_other_id _ _ _ _ _ Hc Hr Hr' Hne (eq_sym E)).
  - split; [split; [discriminate | intros [? ?]; discriminate] |].
    split; [reflexivity |]. split; [exact Hr |].
    split; [| split; [auto | reflexivity]].
    unfold get_object_location, get_sighting_by_name. now rewrite Hr.
Qed.

(** X12.  Every sighting belongs to a stored object, and this is kept
    by recording a sighting, by deleting an object and by enrolling one.
    So an object enrolled under a new name has no location until it is
    sighted -- also under a name that was stored, sighted and deleted
    before. *)
Theorem X12_sightings_belong_to_stored_objects (s : Store) :
  store_ok s ->
  (forall name image location lat lon nearby conf now,
     store_ok (snd (update_object_sighting name image location lat lon
                      nearby conf now s))) /\
  (forall name, store_ok (snd (delete_object name s))) /\
  (forall name cls feats frames,
     store_ok (enrolled name cls feats frames s) /\
     (get_remembered_object name (tables s) = None ->
      get_object_location name (enrolled name cls feats frames s) = None)).
Proof.
  intros [Hc Hs]. split; [| split].
  - intros name image location lat lon nearby conf now.
    unfold update_object_sighting.
    destruct (get_remembered_object name (tables s)) as [r |] eqn:Hr;
      cbn [snd]; [| split; assumption].
    split; [exact Hc |]. cbn [add_object_sighting tables object_sightings].
    intros id Hid. apply lookup_insert_is_Some in Hid as [<- | [_ Hid]].
    + apply find_name_some in Hr as [Hin _]. now apply List.in_map.
    + auto.
  - intros name. unfold delete_object, delete_remembered_object.
    destruct (get_remembered_object name (tables s)) as [r |] eqn:Hr;
      cbn [snd]; [| split; assumption].
    split; [now apply delete_consistent |].
    cbn [tables object_sightings remembered_objects]. intros id [x Hid].
    apply lookup_delete_Some in Hid as [Hne Hid].
    specialize (Hs id (ex_intro _ x Hid)).
    apply List.in_map_iff in Hs as (y & Hy & Hyin).
    apply List.in_map_iff. exists y. split; [exact Hy |].
    apply List.filter_In. split; [exact Hyin |].
    destruct (Z.eqb_spec (ro_id y) (ro_id r)); [congruence | reflexivity].
  - intros name cls feats frames. split.
    + split; [now apply add_remembered_object_consistent |].
      cbn [enrolled tables object_sightings]. intros id Hid.
      specialize (Hs id Hid). unfold add_remembered_object.
      destruct (get_remembered_object name (tables s)); cbn [snd];
        [exact Hs |].
      cbn [remembered_objects]. rewrite List.map_app.
      apply List.in_or_app. now left.
    + intros Hnew.
      unfold get_object_location, get_sighting_by_name, enrolled,
        add_remembered_object.
      rewrite Hnew. cbn [snd tables object_sightings].
      unfold get_remembered_object in *. cbn [remembered_objects].
      rewrite find_name_app, Hnew. simpl. rewrite String.eqb_refl.
      unfold get_latest_sighting. cbn [object_sightings ro_id].
      destruct (object_sightings s !! (ro_seq (tables s) + 1)) as [x |] eqn:E;
        [| reflexivity].
      exfalso. specialize (Hs _ (ex_intro _ x E)).
      apply List.in_map_iff in Hs as (y & Hy & Hyin).
      destruct Hc as (_ & _ & Hr & _).
      rewrite List.Forall_forall in Hr. specialize (Hr y Hyin). lia.
Qed.

End SightingsInvariant.

Module SightingScenarios.
Import Sightings.

(** The two enrolled key rings, the house keys seen on the kitchen
    table at time 10. *)
Definition keys_store : Store := mkStore Scenarios.keys_db ∅.

Definition keys_sighted : Store :=
  snd (update_object_sighting "house keys" false
         (Some "kitchen table"%string) None None (Some ["cup"%string])
         (9 # 10) 10 keys_store).

End SightingScenarios.

Ltac keys_db_consistent :=
  unfold DatabaseFacts.consistent; simpl;
  split; [| split; [| split]];
  [ apply (bool_decide_unpack _); vm_compute; exact I
  | apply (bool_decide_unpack _); vm_compute; exact I
  | repeat constructor; simpl; lia
  | lia ].

Lemma X10_update_object_sighting_latest_wins_witness :
  fst (Sightings.update_object_sighting "house keys" true
         (Some "hallway shelf"%string) None None None (8 # 10) 20
         SightingScenarios.keys_sighted) = true.
Proof.
  destruct (X10_update_object_sighting_latest_wins "house keys" true
              (Some "hallway shelf"%string) None None None (8 # 10) 20
              SightingScenarios.keys_sighted) as [_ H].
  - keys_db_consistent.
  - apply H. vm_compute. eauto.
Defined.

Lemma X11_delete_object_forgets_object_and_sighting_witness :
  Sightings.get_object_location "house keys"
    (snd (Sightings.delete_object "house keys"
            SightingScenarios.keys_sighted)) = None.
Proof.
  destruct (X11_delete_object_forgets_object_and_sighting "house keys"
              SightingScenarios.keys_sighted) as (_ & _ & _ & H & _).
  - keys_db_consistent.
  - exact H.
Defined.

Lemma X12_sightings_belong_to_stored_objects_witness :
  Sightings.store_ok
    (snd (Sightings.delete_object "house keys"
            SightingScenarios.keys_sighted)).
Proof.
  destruct (X12_sightings_belong_to_stored_objects
              SightingScenarios.keys_sighted) as (_ & H & _).
  - destruct (X12_sightings_belong_to_stored_objects
                SightingScenarios.keys_store) as (H & _).
    + split; [keys_db_consistent |].
      intros id [x Hx]. simpl in Hx. rewrite lookup_empty in Hx.
      discriminate.
    + apply H.
  - apply H.
Defined.

(** ** The speech queue under load *)

Module AudioFacts.
Import AudioFeedback.

(** One message is spoken to the queue and the worker plays one
    message to its end. *)
Definition busy_turn (msg : string * Z) (a : Audio) : Audio :=
  worker_done (worker_take (speak (fst msg) (snd msg) false a)).

Definition busy_turns (msgs : list (string * Z)) (a : Audio) : Audio :=
  List.fold_left (fun a msg => busy_turn msg a) msgs a.

(** Emergency calls one after the other. *)
Definition emergencies (texts : list string) (a : Audio) : Audio :=
  List.fold_left (fun a text => speak_emergency text a) texts a.

(** [get_queue_size] and [is_busy]. *)
Definition get_queue_size (a : Audio) : nat := length (audio_queue a).
Definition is_busy (a : Audio) : bool := is_playing a.

End AudioFacts.

Section AudioFactsProofs.
Import AudioFeedback AudioFacts Props.

Lemma least_app (r : list Entry) (x : Entry) : forall a,
  least a (r ++ [x])
    = if entry_ltb x (least a r) then x else least a r.
Proof.
  induction r as [| y r IH]; intros a; simpl; [reflexivity | apply IH].
Qed.

Lemma remove_first_app_new (x : Entry) (q : list Entry) :
  Forall (fun e => entry_ltb x e = true) q ->
  remove_first x (q ++ [x]) = q.
Proof.
  induction q as [| y q IH]; intros H; simpl.
  - now rewrite Z.eqb_refl, String.eqb_refl.
  - apply Forall_cons in H as [Hy H].
    destruct ((fst y =? fst x) && String.eqb (snd y) (snd x)) eqn:E.
    + apply andb_true_iff in E as [E1 E2].
      apply Z.eqb_eq in E1. apply String.eqb_eq in E2.
      destruct x, y; simpl in *; subst.
      rewrite entry_ltb_irrefl in Hy. discriminate.
    + f_equal. now apply IH.
Qed.

Lemma pq_get_most_urgent (x : Entry) (q : list Entry) :
  Forall (fun e => entry_ltb x e = true) q ->
  pq_get (pq_put x q) = Some (x, q).
Proof.
  intros H. unfold pq_put. destruct q as [| y r].
  - simpl. now rewrite Z.eqb_refl, String.eqb_refl.
  - change ((y :: r) ++ [x]) with (y :: (r ++ [x])). unfold pq_get.
    rewrite least_app.
    assert (Hl : entry_ltb x (least y r) = true).
    { rewrite List.Forall_forall in H. apply H. apply least_in. }
    rewrite Hl. f_equal. f_equal.
    change (y :: r ++ [x]) with ((y :: r) ++ [x]).
    now apply remove_first_app_new.
Qed.

Lemma busy_turn_step (text : string) (p : Z) (a : Audio) :
  is_playing a = false ->
  Forall (fun e => p < fst e) (audio_queue a) ->
  busy_turn (text, p) a
    = mkAudio (audio_queue a) false None (spoken a ++ [text]).
Proof.
  intros Hp Hq. unfold busy_turn, speak, worker_take, worker_done.
  cbn [fst snd]. rewrite Hp, andb_false_r.
  cbn [audio_queue spoken is_playing].
  rewrite pq_get_most_urgent; [reflexivity |].
  eapply List.Forall_impl; [| exact Hq]. intros e He. cbn beta in He.
  unfold entry_ltb. cbn [fst]. apply orb_true_iff. left. now apply Z.ltb_lt.
Qed.

(** X14.  The queue does not age its entries.  While nothing is being
    played, let a message arrive in every turn of the worker that is
    more urgent than everything pending: the worker plays exactly the
    arriving messages, in their order of arrival, and the pending
    entries are all still pending afterwards, however many turns go
    by. *)
Theorem X14_pending_messages_wait_behind_urgent_ones
    (msgs : list (string * Z)) (au : Audio) :
  is_playing au = false ->
  Forall (fun msg => Forall (fun e => snd msg < fst e) (audio_queue au))
         msgs ->
  audio_queue (busy_turns msgs au) = audio_queue au /\
  spoken (busy_turns msgs au) = spoken au ++ List.map fst msgs /\
  get_queue_size (busy_turns msgs au) = get_queue_size au.
Proof.
  intros Hp Hm.
  assert (H : audio_queue (busy_turns msgs au) = audio_queue au /\
              spoken (busy_turns msgs au) = spoken au ++ List.map fst msgs).
  { revert au Hp Hm. unfold busy_turns.
    induction msgs as [| [text p] msgs IH]; intros au Hp Hm.
    - simpl. now rewrite app_nil_r.
    - apply Forall_cons in Hm as [Hm1 Hm]. cbn [List.fold_left].
      rewrite busy_turn_step by assumption.
      destruct (IH (mkAudio (audio_queue au) false None
                            (spoken au ++ [text])) eq_refl Hm) as [I1 I2].
      split; [exact I1 |]. rewrite I2. cbn [spoken List.map fst].
      now rewrite <- app_assoc. }
  destruct H as [H1 H2]. unfold get_queue_size. now rewrite H1.
Qed.

Lemma emergencies_keep (texts : list string) : forall a,
  is_playing (emergencies texts a) = is_playing a /\
  spoken (emergencies texts a) = spoken a.
Proof.
  unfold emergencies.
  induction texts as [| t texts IH]; intros a; [split; reflexivity |].
  cbn [List.fold_left]. destruct (IH (speak_emergency t a)) as [I1 I2].
  rewrite I1, I2. unfold speak_emergency, speak. rewrite Z.eqb_refl.
  destruct (is_playing a) eqn:E; cbn; rewrite ?E; split; reflexivity.
Qed.

Lemma drain_nil n : drain n [] = [].
Proof. destruct n; reflexivity. Qed.

(** X13.  While a message is being played, every emergency call throws
    away what is pending -- earlier emergency messages included.  Of any
    number of emergency calls made during one playback only the last is
    ever played. *)
Theorem X13_emergency_calls_during_playback_keep_the_last
    (texts : list string) (text : string) (au : Audio) :
  is_playing au = true ->
  let au' := speak_emergency text (emergencies texts au) in
  audio_queue au' = [(Config.PRIORITY_EMERGENCY, text)] /\
  (forall n, spoken (worker_run (S n) (worker_done au'))
             = spoken au ++ [text]).
Proof.
  intros Hp au'.
  destruct (emergencies_keep texts au) as [K1 K2].
  assert (Hq : audio_queue au' = [(Config.PRIORITY_EMERGENCY, text)]).
  { subst au'. unfold speak_emergency, speak.
    rewrite Z.eqb_refl, K1, Hp. reflexivity. }
  split; [exact Hq |]. intros n. rewrite worker_run_spoken.
  cbn [worker_done spoken audio_queue]. rewrite Hq.
  cbn [drain pq_get least remove_first fst snd].
  rewrite Z.eqb_refl, String.eqb_refl. cbn [andb]. rewrite drain_nil.
  subst au'. unfold speak_emergency, speak. cbn [spoken].
  rewrite Z.eqb_refl, K1, Hp. cbn [andb _clear_queue spoken].
  now rewrite K2.
Qed.

End AudioFactsProofs.

Lemma X14_pending_messages_wait_behind_urgent_ones_witness :
  AudioFeedback.spoken
    (AudioFacts.busy_turns
       [("Chair ahead"%string, 3); ("Hello Sam"%string, 2);
        ("Table on your left"%string, 3)]
       (AudioFeedback.speak_status "Battery low" AudioFeedback.init))
  = ["Chair ahead"; "Hello Sam"; "Table on your left"]%string.
Proof.
  apply (X14_pending_messages_wait_behind_urgent_ones
           [("Chair ahead"%string, 3); ("Hello Sam"%string, 2);
            ("Table on your left"%string, 3)]
           (AudioFeedback.speak_status "Battery low" AudioFeedback.init)).
  - reflexivity.
  - repeat constructor; vm_compute; reflexivity.
Defined.

Lemma X13_emergency_calls_during_playback_keep_the_last_witness :
  AudioFeedback.audio_queue
    (AudioFeedback.speak_emergency "Stop, stairs"
       (AudioFacts.emergencies ["Stop, car"%string]
          (AudioFeedback.worker_take
             (AudioFeedback.speak_status "Battery low" AudioFeedback.init))))
  = [(1, "Stop, stairs"%string)].
Proof.
  apply (X13_emergency_calls_during_playback_keep_the_last
           ["Stop, car"%string] "Stop, stairs"
           (AudioFeedback.worker_take
              (AudioFeedback.speak_status "Battery low" AudioFeedback.init))).
  vm_compute. reflexivity.
Defined.

(** ** The navigation engine between start and stop *)

Module NavigationFacts.
Import NavigationEngine.

(** What [update] has no assignment for. *)
Definition same_settings (e e' : Engine) : Prop :=
  announcement_distance e' = announcement_distance e /\
  reroute_distance e' = reroute_distance e /\
  arrival_distance e' = arrival_distance e /\
  active_route e' = active_route e.

Definition is_navigating (st : Status) : bool :=
  match st with Navigating _ _ _ _ _ => true | _ => false end.

Definition announces (st : Status) : bool :=
  match st with Navigating _ _ _ _ a => a | _ => false end.





End NavigationFacts.

Section NavigationFactsProofs.
Import NavigationEngine NavigationFacts Props.
Context {G : Geodesy} {M : Type} {N : Navigator M}.

Lemma should_announce_cases (d : Q) (e : Engine) :
  _should_announce d e = (false, e) \/
  (_should_announce d e
     = (true, set_last_announcement (Some (current_step e)) e) /\
   announced_here e = false).
Proof.
  unfold _should_announce. destruct (Qle_bool d (announcement_distance e));
    [| now left].
  destruct (announced_here e); [now left | now right].
Qed.

Lemma update_frame gps (e : Engine) (m : M) st e' m' :
  update gps e m = Some (st, e', m') ->
  same_settings e e' /\
  (navigation_active e' = true -> navigation_active e = true) /\
  (navigation_active e' <> navigation_active e ->
   is_arrived_status st = true) /\
  (current_step e <= current_step e' <= S (current_step e))%nat /\
  (is_navigating st = false -> is_arrived_status st = false ->
   e' = e /\ m' = m).
Proof.
  unfold update, same_settings. intros H.
  destruct (navigation_active e) eqn:Ha;
    [destruct (active_route e) as [r |] eqn:Hr |];
    [destruct gps as [pos |] | |];
    try (injection H as <- <- <-; rewrite ?Ha;
         repeat split; auto; try lia; congruence).
  destruct (_is_arrived r e pos) as [[|] |]; [| | discriminate].
  { destruct (_calculate_distance_to_destination r pos); [| discriminate].
    injection H as <- <- <-. cbn. repeat split; auto; try lia; discriminate. }
  destruct (_is_off_route r e pos) as [[|] |]; [| | discriminate].
  { destruct (_calculate_deviation r e pos); [| discriminate].
    injection H as <- <- <-. rewrite Ha.
    repeat split; auto; try lia; congruence. }
  destruct (get_current_instruction m);
    [| injection H as <- <- <-; rewrite Ha;
       repeat split; auto; try lia; congruence].
  destruct (_calculate_distance_to_waypoint r e pos) as [d |];
    [| discriminate].
  destruct (should_announce_cases d e) as [E | [E _]]; rewrite E in H;
    destruct (Qlt_bool d 10);
    try destruct (advance_step m) as [m1 [|]];
    injection H as <- <- <-; cbn; rewrite ?Ha;
    repeat split; auto; try lia; try congruence; discriminate.
Qed.

(** X15.  Whatever the GPS reading and the navigator, a call of [update]
    that returns leaves the three thresholds and the route as they are,
    never switches navigation on, switches it off only together with the
    arrival status, and moves the step counter forward by one or not at
    all.  With any status other than navigating and arrived, engine and
    navigator are exactly as before. *)
Theorem X15_update_frame gps (e : Engine) (m : M) st e' m' :
  update gps e m = Some (st, e', m') ->
  same_settings e e' /\
  (navigation_active e' = true -> navigation_active e = true) /\
  (navigation_active e' <> navigation_active e ->
   is_arrived_status st = true) /\
  (current_step e <= current_step e' <= S (current_step e))%nat /\
  (is_navigating st = false -> is_arrived_status st = false ->
   e' = e /\ m' = m).
Proof. apply update_frame. Qed.

Lemma update_announced gps (e : Engine) (m : M) st e' m' :
  last_announcement e = Some (current_step e) ->
  update gps e m = Some (st, e', m') ->
  announces st = false /\
  (current_step e' = current_step e ->
   last_announcement e' = Some (current_step e')).
Proof.
  intros Hl. unfold update. intros H.
  destruct (navigation_active e) eqn:Ha;
    [destruct (active_route e) as [r |] eqn:Hr |];
    [destruct gps as [pos |] | |];
    try (injection H as <- <- <-; split; [reflexivity | now intros _]).
  destruct (_is_arrived r e pos) as [[|] |]; [| | discriminate].
  { destruct (_calculate_distance_to_destination r pos); [| discriminate].
    injection H as <- <- <-. split; [reflexivity | now intros _]. }
  destruct (_is_off_route r e pos) as [[|] |]; [| | discriminate].
  { destruct (_calculate_deviation r e pos); [| discriminate].
    injection H as <- <- <-. split; [reflexivity | now intros _]. }
  destruct (get_current_instruction m);
    [| injection H as <- <- <-; split; [reflexivity | now intros _]].
  destruct (_calculate_distance_to_waypoint r e pos) as [d |];
    [| discriminate].
  destruct (should_announce_cases d e) as [E | [_ E]].
  - rewrite E in H. destruct (Qlt_bool d 10);
      try destruct (advance_step m) as [m1 [|]];
      injection H as <- <- <-; cbn; split; auto; lia.
  - unfold announced_here in E. rewrite Hl, Nat.eqb_refl in E.
    discriminate.
Qed.

Lemma updates_step_monotone fixes : forall (e : Engine) (m : M) sts e' m',
  updates fixes e m = Some (sts, e', m') ->
  (current_step e <= current_step e')%nat.
Proof.
  induction fixes as [| g fixes IH]; intros e m sts e' m' Us.
  - injection Us as <- <- <-. lia.
  - cbn [updates] in Us.
    destruct (update g e m) as [[[st e4] m4] |] eqn:U; [| discriminate].
    destruct (updates fixes e4 m4) as [[[o e5] m5] |] eqn:Us';
      [| discriminate].
    injection Us as <- <- <-.
    pose proof (update_frame _ _ _ _ _ _ U) as (_ & _ & _ & B & _).
    specialize (IH _ _ _ _ _ Us'). lia.
Qed.

(** X16.  One announcement per step.  Once [update] has announced the
    instruction of a step and stayed on that step, no later call
    announces again for as long as the step counter stays where it is,
    whatever the GPS readings in between. *)
Theorem X16_update_announces_once_per_step gps (e : Engine) (m : M)
    st e1 m1 :
  update gps e m = Some (st, e1, m1) ->
  announces st = true ->
  current_step e1 = current_step e ->
  forall fixes sts e' m',
    updates fixes e1 m1 = Some (sts, e', m') ->
    current_step e' = current_step e ->
    Forall (fun st' => announces st' = false) sts.
Proof.
  intros H Ha Hs.
  assert (Hl : last_announcement e1 = Some (current_step e1)).
  { revert H. unfold update.
    destruct (navigation_active e);
      [destruct (active_route e) as [r |] |];
      [destruct gps as [pos |] | |];
      try (intros [= <- <- <-]; discriminate).
    destruct (_is_arrived r e pos) as [[|] |]; [| | discriminate].
    { destruct (_calculate_distance_to_destination r pos);
        [intros [= <- <- <-] |]; discriminate. }
    destruct (_is_off_route r e pos) as [[|] |]; [| | discriminate].
    { destruct (_calculate_deviation r e pos);
        [intros [= <- <- <-] |]; discriminate. }
    destruct (get_current_instruction m);
      [| intros [= <- <- <-]; discriminate].
    destruct (_calculate_distance_to_waypoint r e pos) as [d |];
      [| discriminate].
    destruct (should_announce_cases d e) as [E | [E _]]; rewrite E;
      destruct (Qlt_bool d 10);
      try destruct (advance_step m) as [m2 [|]];
      intros [= <- <- <-]; try discriminate; cbn in *;
      try reflexivity; lia. }
  rewrite <- Hs. clear H Ha Hs e m st gps.
  intros fixes. revert e1 m1 Hl.
  induction fixes as [| gps fixes IH]; intros e1 m1 Hl sts e' m' H Hs.
  - injection H as <- <- <-. constructor.
  - cbn [updates] in H.
    destruct (update gps e1 m1) as [[[st e2] m2] |] eqn:U; [| discriminate].
    destruct (updates fixes e2 m2) as [[[out e3] m3] |] eqn:Us;
      [| discriminate].
    injection H as <- <- <-.
    destruct (update_announced _ _ _ _ _ _ Hl U) as [A1 A2].
    pose proof (update_frame _ _ _ _ _ _ U) as (_ & _ & _ & B1 & _).
    pose proof (updates_step_monotone _ _ _ _ _ _ Us) as B2.
    assert (E2 : current_step e2 = current_step e1) by lia.
    constructor; [exact A1 |].
    apply (IH e2 m2 (A2 E2) out e3 m3 Us). lia.
Qed.

End NavigationFactsProofs.

Section GoogleNavigatorProofs.
Import NavigationEngine NavigationFacts Props.
Context {G : Geodesy}.



End GoogleNavigatorProofs.

Section StartStopProofs.
Import NavigationEngine NavigationFacts Props.
Context {G : Geodesy} {M : Type} {N : Navigator M}.



End StartStopProofs.

Module NavigationScenarios.
Import NavigationEngine.


Definition walk_update (fix_ : option (Q * Q)) (e : Engine)
    (g : GoogleMapsNavigator) :=
  @update meridian_geodesy _ google_navigator fix_ e g.

Definition walk_updates (fixes : list (option (Q * Q))) (e : Engine)
    (g : GoogleMapsNavigator) :=
  @Props.updates meridian_geodesy _ google_navigator fixes e g.

End NavigationScenarios.

Lemma X15_update_frame_witness :
  exists st e' g',
    NavigationScenarios.walk_update (Some Scenarios.twenty_metres_out)
      Scenarios.walking Scenarios.walk_maps = Some (st, e', g') /\
    NavigationFacts.same_settings Scenarios.walking e'.
Proof.
  do 3 eexists. split; [vm_compute; reflexivity |].
  eapply (X15_update_frame (G := NavigationEngine.meridian_geodesy)
            (N := NavigationEngine.google_navigator)
            (Some Scenarios.twenty_metres_out)
            Scenarios.walking Scenarios.walk_maps).
  vm_compute. reflexivity.
Defined.

Lemma X16_update_announces_once_per_step_witness :
  exists st e1 g1 sts e' g',
    NavigationScenarios.walk_update (Some Scenarios.twenty_metres_out)
      Scenarios.walking Scenarios.walk_maps = Some (st, e1, g1) /\
    NavigationFacts.announces st = true /\
    NavigationScenarios.walk_updates
      [Some Scenarios.twenty_metres_out; None;
       Some Scenarios.twenty_metres_out] e1 g1 = Some (sts, e', g') /\
    Forall (fun st' => NavigationFacts.announces st' = false) sts.
Proof.
  do 6 eexists. split; [vm_compute; reflexivity |].
  split; [reflexivity |]. split; [vm_compute; reflexivity |].
  refine (X16_update_announces_once_per_step
            (G := NavigationEngine.meridian_geodesy)
            (N := NavigationEngine.google_navigator)
            (Some Scenarios.twenty_metres_out)
            Scenarios.walking Scenarios.walk_maps _ _ _ _ _ _
            [Some Scenarios.twenty_metres_out; None;
             Some Scenarios.twenty_metres_out] _ _ _ _ _);
    vm_compute; reflexivity.
Defined.



(** ** Free-space guidance *)

Module GuidanceFacts.
Import SpatialNavigator AudioFeedback.

Definition bottom_occupied (zones : list string) : bool :=
  str_in "bottom-left" zones || str_in "bottom" zones
  || str_in "bottom-right" zones.

Definition left_blocked (zones : list string) : bool :=
  str_in "bottom-left" zones || str_in "left" zones.

Definition right_blocked (zones : list string) : bool :=
  str_in "bottom-right" zones || str_in "right" zones.

(** The entry the loop of [generate_guidance] appends for an obstacle. *)
Definition object_entry (n : Navigator) (det : Detection) : Guidance :=
  let zone := get_object_zone n (bbox det) in
  let distance := estimate_distance n (bbox det) in
  let priority := dict_get ZONE_PRIORITY zone 3 in
  let message := _create_guidance_message (class_name det) zone distance in
  let priority :=
    if String.eqb distance "very-close" then 1
    else if String.eqb distance "close" && (priority =? 2) then 1
    else priority in
  mkGuidance message priority zone distance (class_name det)
             (Some (bbox det)).

(** The aggregate entry appended after the loop. *)
Definition aggregate_entry (occupied_zones : list string) : Guidance :=
  match get_clear_direction occupied_zones with
  | Some clear_direction =>
      mkGuidance ("Move " ++ clear_direction)%string 1
                 "navigation"%string "immediate"%string
                 "navigation"%string None
  | None =>
      mkGuidance "Path blocked, stop"%string 1 "navigation"%string
                 "immediate"%string "emergency"%string None
  end.

Definition obstacles (detections : list Detection) : list Detection :=
  List.filter (fun det => is_obstacle (class_name det)) detections.

(** wireless/laptop_server.py, [process_frame], step 4 once the guidance
    is computed: the audio call made when the cooldown is over, and the
    two entries of [result] it assigns (left as they were for an empty
    guidance list). *)
Definition spatial_step (guidance : list Guidance)
    (cooldown_over audio_enabled : bool) (a : Audio)
    : Audio * option (string * list string) :=
  let a' :=
    match guidance with
    | top :: _ =>
        if cooldown_over && audio_enabled then
          if g_priority top =? 1 then speak_emergency (g_message top) a
          else speak_navigational (g_message top) a
        else a
    | [] => a
    end in
  (a',
   match guidance with
   | top :: _ =>
       Some (g_message top, List.map g_message (List.firstn 3 guidance))
   | [] => None
   end).

End GuidanceFacts.

Section GuidanceFactsProofs.
Import SpatialNavigator AudioFeedback GuidanceFacts Props.

Lemma str_in_filter (x : string) (f : string -> bool) (l : list string) :
  str_in x (List.filter f l) = f x && str_in x l.
Proof.
  unfold str_in. induction l as [| y l IH]; simpl; [now rewrite andb_false_r |].
  destruct (String.eqb_spec x y) as [<- | Hne].
  - destruct (f x) eqn:E; simpl.
    + now rewrite String.eqb_refl.
    + exact IH.
  - destruct (f y); simpl; [| exact IH].
    destruct (String.eqb_spec x y); [contradiction | exact IH].
Qed.

Lemma filter_nil_existsb {A} (f : A -> bool) (l : list A) :
  match List.filter f l with [] => true | _ => false end
    = negb (existsb f l).
Proof.
  induction l as [| y l IH]; simpl; [reflexivity |].
  destruct (f y); [reflexivity | exact IH].
Qed.

Lemma existsb_bottom (l : list string) :
  existsb (fun z => str_in z ["bottom-left"; "bottom"; "bottom-right"]%string)
          l
    = bottom_occupied l.
Proof.
  unfold bottom_occupied.
  induction l as [| y l IH]; [reflexivity |].
  change (existsb
            (fun z => str_in z ["bottom-left"; "bottom"; "bottom-right"])
            (y :: l))%string
    with (str_in y ["bottom-left"; "bottom"; "bottom-right"]%string
          || existsb
               (fun z => str_in z ["bottom-left"; "bottom"; "bottom-right"])
               l)%string.
  rewrite IH. unfold str_in. cbn [existsb].
  rewrite (String.eqb_sym "bottom-left" y), (String.eqb_sym "bottom" y),
    (String.eqb_sym "bottom-right" y).
  destruct (String.eqb y "bottom-left"), (String.eqb y "bottom"),
    (String.eqb y "bottom-right"),
    (existsb (String.eqb "bottom-left") l),
    (existsb (String.eqb "bottom") l); reflexivity.
Qed.

(** X19.  The decision of [get_clear_direction] in full.  With no bottom
    zone occupied the way is straight on.  Otherwise the left side is
    taken whenever neither bottom-left nor left is occupied, the right
    side when the left is blocked and neither bottom-right nor right is
    occupied, and the path is blocked when both sides are.  So "straight"
    is never answered with an obstacle in a bottom zone, and left is
    preferred to right. *)
Theorem X19_get_clear_direction_decision (zones : list string) :
  get_clear_direction zones
    = if negb (bottom_occupied zones) then Some "straight"%string
      else if negb (left_blocked zones) then Some "left"%string
      else if negb (right_blocked zones) then Some "right"%string
      else None.
Proof.
  unfold get_clear_direction. cbv zeta.
  rewrite !str_in_filter.
  change (str_in "bottom-left" ["bottom-left"; "bottom"; "bottom-right"])
    with true.
  change (str_in "bottom-right" ["bottom-left"; "bottom"; "bottom-right"])
    with true.
  change (str_in "bottom" ["bottom-left"; "bottom"; "bottom-right"])
    with true.
  cbn [andb].
  pose proof (filter_nil_existsb
                (fun z => str_in z ["bottom-left"; "bottom"; "bottom-right"]
                            %string) zones) as Hnil.
  rewrite existsb_bottom in Hnil.
  destruct (List.filter _ zones).
  - apply (f_equal negb) in Hnil. rewrite negb_involutive in Hnil.
    cbn in Hnil. now rewrite <- Hnil.
  - apply (f_equal negb) in Hnil. rewrite negb_involutive in Hnil.
    cbn [negb] in Hnil. rewrite <- Hnil. cbn [negb].
    revert Hnil. unfold bottom_occupied, left_blocked, right_blocked.
    destruct (str_in "bottom-left" zones), (str_in "bottom" zones),
      (str_in "bottom-right" zones), (str_in "left" zones),
      (str_in "right" zones); cbn; intros H; try discriminate H;
      reflexivity.
Qed.

End GuidanceFactsProofs.

Section GuidanceListProofs.
Import SpatialNavigator AudioFeedback GuidanceFacts Props.

Lemma guide_one_fold (n : Navigator) (ds : list Detection) :
  forall gl oz,
    List.fold_left (guide_one n) ds (gl, oz)
      = (gl ++ List.map (object_entry n) (obstacles ds),
         oz ++ List.map (fun det => get_object_zone n (bbox det))
                 (obstacles ds)).
Proof.
  unfold obstacles.
  induction ds as [| det ds IH]; intros gl oz.
  - simpl. now rewrite !app_nil_r.
  - cbn [List.fold_left List.filter]. unfold guide_one at 2.
    destruct (is_obstacle (class_name det)); cbn [negb].
    + rewrite IH. cbn [List.map]. rewrite <- !app_assoc. reflexivity.
    + apply IH.
Qed.

(** The list before the final sort: the entries of the obstacles in
    detection order, then the aggregate entry. *)
Lemma generate_guidance_entries (n : Navigator) (ds : list Detection) :
  generate_guidance n ds
    = sort_by by_priority
        (match obstacles ds with
         | [] => []
         | _ =>
             List.map (object_entry n) (obstacles ds) ++
               [aggregate_entry
                  (List.map (fun det => get_object_zone n (bbox det))
                     (obstacles ds))]
         end).
Proof.
  unfold generate_guidance. rewrite guide_one_fold. cbn [app].
  unfold aggregate_entry.
  destruct (obstacles ds) as [| o os]; [reflexivity |].
  cbn [List.map].
  destruct (get_clear_direction _); reflexivity.
Qed.

Lemma object_entry_priority (n : Navigator) (det : Detection) :
  1 <= g_priority (object_entry n det) <= 3.
Proof.
  unfold object_entry. cbn [g_priority].
  destruct (String.eqb (estimate_distance n (bbox det)) "very-close");
    [lia |].
  destruct (String.eqb (estimate_distance n (bbox det)) "close"
            && (dict_get ZONE_PRIORITY (get_object_zone n (bbox det)) 3 =? 2));
    [lia |].
  unfold get_object_zone.
  repeat match goal with
         | |- context [if ?c then _ else _] => destruct c
         end; vm_compute; split; discriminate.
Qed.

Lemma aggregate_entry_priority (zones : list string) :
  g_priority (aggregate_entry zones) = 1.
Proof. unfold aggregate_entry. now destruct (get_clear_direction zones). Qed.

Lemma find_app_first {A} (p : A -> bool) (l more : list A) :
  List.find p (l ++ more)
    = match List.find p l with
      | Some x => Some x
      | None => List.find p more
      end.
Proof.
  induction l as [| x l IH]; simpl; [reflexivity |].
  destruct (p x); [reflexivity | exact IH].
Qed.

(** The stable sort puts the first entry of priority 1 in front. *)
Lemma sort_by_priority_head (l : list Guidance) (g : Guidance) :
  Forall (fun x => 1 <= g_priority x) l ->
  List.find (fun x => g_priority x =? 1) l = Some g ->
  exists rest, sort_by by_priority l = g :: rest.
Proof.
  induction l as [| x l IH]; [discriminate |].
  intros Hall Hfind. apply Forall_cons in Hall as [Hx Hall].
  cbn [List.find] in Hfind.
  change (sort_by by_priority (x :: l))
    with (insert_by by_priority x (sort_by by_priority l)).
  destruct (g_priority x =? 1) eqn:E.
  - injection Hfind as <-. apply Z.eqb_eq in E.
    pose proof (sort_by_perm by_priority l) as Hperm.
    destruct (sort_by by_priority l) as [| y r] eqn:Es;
      [eexists; reflexivity |].
    cbn [insert_by]. unfold by_priority at 1.
    assert (Hy : 1 <= g_priority y).
    { rewrite List.Forall_forall in Hall. apply Hall.
      eapply Permutation_in; [symmetry; exact Hperm | now left]. }
    destruct (Z.leb_spec (g_priority x) (g_priority y)); [| lia].
    eexists; reflexivity.
  - destruct (IH Hall Hfind) as [rest Hs]. rewrite Hs.
    apply List.find_some in Hfind as [_ Hg]. apply Z.eqb_eq in Hg.
    apply Z.eqb_neq in E.
    cbn [insert_by]. unfold by_priority at 1.
    destruct (Z.leb_spec (g_priority x) (g_priority g)); [lia |].
    eexists; reflexivity.
Qed.

(** X20.  [generate_guidance] returns nothing when no detection is an
    obstacle.  Otherwise it returns one entry per obstacle and exactly
    one aggregate entry, rearranged; every priority in the list is 1, 2
    or 3, and the aggregate entry has priority 1. *)
Theorem X20_generate_guidance_entries (n : Navigator)
    (ds : list Detection) :
  Permutation
    (match obstacles ds with
     | [] => []
     | _ =>
         List.map (object_entry n) (obstacles ds) ++
           [aggregate_entry
              (List.map (fun det => get_object_zone n (bbox det))
                 (obstacles ds))]
     end)
    (generate_guidance n ds) /\
  length (generate_guidance n ds)
    = match obstacles ds with
      | [] => 0%nat
      | _ => S (length (obstacles ds))
      end /\
  Forall (fun g => 1 <= g_priority g <= 3) (generate_guidance n ds) /\
  (forall zones, g_priority (aggregate_entry zones) = 1).
Proof.
  assert (Hperm : Permutation
    (match obstacles ds with
     | [] => []
     | _ =>
         List.map (object_entry n) (obstacles ds) ++
           [aggregate_entry
              (List.map (fun det => get_object_zone n (bbox det))
                 (obstacles ds))]
     end)
    (generate_guidance n ds)).
  { rewrite generate_guidance_entries. apply sort_by_perm. }
  split; [exact Hperm |]. split; [| split].
  - rewrite <- (Permutation_length Hperm).
    destruct (obstacles ds); [reflexivity |].
    rewrite List.length_app, List.length_map. simpl. lia.
  - eapply Permutation_Forall; [exact Hperm |].
    destruct (obstacles ds) as [| o os]; [constructor |].
    apply List.Forall_app. split.
    + apply List.Forall_forall. intros g Hg.
      apply List.in_map_iff in Hg as (det & <- & _).
      apply object_entry_priority.
    + constructor; [| constructor].
      rewrite aggregate_entry_priority. lia.
  - apply aggregate_entry_priority.
Qed.

(** X21.  Step 4 of [process_frame] never reaches its navigational
    branch: whenever [generate_guidance] returns anything, its first
    entry has priority 1, so the message goes out by [speak_emergency].
    The message is that of the first obstacle whose entry has priority
    1, in detection order, and the aggregate message ("Move ..." or
    "Path blocked, stop") only when no obstacle has priority 1.  At most
    three warnings are reported. *)
Theorem X21_spatial_step_speaks_emergency (n : Navigator)
    (ds : list Detection) (cooldown_over audio_enabled : bool)
    (a : Audio) :
  (length
     (match snd (spatial_step (generate_guidance n ds) cooldown_over
                   audio_enabled a) with
      | Some (_, warnings) => warnings
      | None => []
      end) <= 3)%nat /\
  match obstacles ds with
  | [] =>
      spatial_step (generate_guidance n ds) cooldown_over audio_enabled a
        = (a, None)
  | _ =>
      let top :=
        match List.find (fun g => g_priority g =? 1)
                (List.map (object_entry n) (obstacles ds)) with
        | Some g => g
        | None =>
            aggregate_entry
              (List.map (fun det => get_object_zone n (bbox det))
                 (obstacles ds))
        end in
      spatial_step (generate_guidance n ds) cooldown_over audio_enabled a
        = (if cooldown_over && audio_enabled
           then speak_emergency (g_message top) a else a,
           Some (g_message top,
                 List.map g_message
                   (List.firstn 3 (generate_guidance n ds))))
  end.
Proof.
  split.
  - unfold spatial_step. cbn [snd].
    destruct (generate_guidance n ds) as [| top rest]; [simpl; lia |].
    rewrite List.length_map, List.length_firstn. lia.
  - rewrite generate_guidance_entries.
    destruct (obstacles ds) as [| o os] eqn:Eo; [reflexivity |].
    cbv zeta.
    set (entries := List.map (object_entry n) (o :: os)).
    set (agg := aggregate_entry _).
    set (top := match List.find _ entries with
                | Some g => g
                | None => agg
                end).
    assert (Hfind : List.find (fun g => g_priority g =? 1) (entries ++ [agg])
                    = Some top).
    { rewrite find_app_first. subst top.
      destruct (List.find _ entries); [reflexivity |].
      cbn [List.find]. subst agg. now rewrite aggregate_entry_priority. }
    assert (Hall : Forall (fun x => 1 <= g_priority x) (entries ++ [agg])).
    { apply List.Forall_app. split.
      - apply List.Forall_forall. intros g Hg. subst entries.
        apply List.in_map_iff in Hg as (det & <- & _).
        apply object_entry_priority.
      - constructor; [| constructor]. subst agg.
        rewrite aggregate_entry_priority. lia. }
    destruct (sort_by_priority_head _ _ Hall Hfind) as [rest Hs].
    rewrite Hs. unfold spatial_step.
    apply List.find_some in Hfind as [_ Hp]. rewrite Hp. reflexivity.
Qed.

End GuidanceListProofs.

(** ** Obstacle warnings with and without the range sensor *)

Module FusionFacts.
Import ObstacleFusion.

(** What [get_object_with_distance] makes of one detection. *)
Definition enhance (f : Fusion) (ultrasonic : option Q) (obj : Detection)
    : Enhanced :=
  if _is_in_sensor_view f (bbox obj) then
    match truthy_reading ultrasonic with
    | Some d => mkEnhanced obj (d / 100)%Q "ultrasonic"
    | None =>
        mkEnhanced obj (_estimate_from_bbox f (bbox obj)) "camera_estimate"
    end
  else
    mkEnhanced obj (_estimate_from_bbox f (bbox obj)) "camera_estimate".

End FusionFacts.

Section FusionFactsProofs.
Import ObstacleFusion FusionFacts Props.
Context {FF : FloatFormat}.

(** Every warning is the warning of one of the detections, which is of
    an obstacle class and closer than 1.5 m. *)
Lemma generate_obstacle_warnings_origin (f : Fusion) (ultrasonic : option Q)
    (objects : list Detection) (w : Warning) :
  In w (generate_obstacle_warnings f ultrasonic objects) ->
  exists obj,
    In obj objects /\
    w = warn_one f (enhance f ultrasonic obj) /\
    str_in (class_name obj) obstacle_classes = true /\
    (precise_distance (enhance f ultrasonic obj) < 3 # 2)%Q.
Proof.
  unfold generate_obstacle_warnings, get_critical_obstacles,
    get_object_with_distance.
  intros H. apply List.in_map_iff in H as (e & <- & He).
  assert (He' : In e (sort_by by_distance
                        (List.filter
                           (fun obj =>
                              str_in (class_name (e_det obj)) obstacle_classes
                              && Qlt_bool (precise_distance obj) (3 # 2))
                           (List.map (enhance f ultrasonic) objects)))).
  { rewrite <- (List.firstn_skipn 3). apply List.in_or_app. now left. }
  eapply Permutation_in in He'; [| symmetry; apply sort_by_perm].
  apply List.filter_In in He' as [Hin Hc].
  apply andb_true_iff in Hc as [Hc Hd]. apply Qlt_bool_iff in Hd.
  apply List.in_map_iff in Hin as (obj & <- & Hobj).
  exists obj. split; [exact Hobj |]. split; [reflexivity |].
  split; [| exact Hd].
  unfold enhance in Hc.
  destruct (_is_in_sensor_view f (bbox obj)),
    (truthy_reading ultrasonic); exact Hc.
Qed.

(** X22.  Without a usable reading of the range sensor -- none, or
    0.0 -- every warning is marked "estimated" and comes from the size
    of the box: distance 0.5 with priority 2, or distance 1.0 with
    priority 3.  Priority 1, the "STOP!" message, is never given on the
    camera alone. *)
Theorem X22_camera_only_warnings_never_stop (f : Fusion)
    (ultrasonic : option Q) (objects : list Detection) :
  truthy_reading ultrasonic = None ->
  Forall (fun w =>
            w_accuracy w = "estimated"%string /\
            (w_priority w = 2 /\ w_distance w = (1 # 2)%Q \/
             w_priority w = 3 /\ w_distance w = 1%Q))
         (generate_obstacle_warnings f ultrasonic objects).
Proof.
  intros Hu. apply List.Forall_forall. intros w Hw.
  apply generate_obstacle_warnings_origin in Hw as (obj & _ & -> & _ & Hd).
  revert Hd. unfold enhance. rewrite Hu.
  assert (E : (if _is_in_sensor_view f (bbox obj)
               then mkEnhanced obj (_estimate_from_bbox f (bbox obj))
                      "camera_estimate"
               else mkEnhanced obj (_estimate_from_bbox f (bbox obj))
                      "camera_estimate")
              = mkEnhanced obj (_estimate_from_bbox f (bbox obj))
                  "camera_estimate")
    by now destruct (_is_in_sensor_view f (bbox obj)).
  rewrite E. clear E. cbn [precise_distance]. intros Hd.
  unfold warn_one. cbn [precise_distance distance_source e_det].
  revert Hd. unfold _estimate_from_bbox.
  repeat match goal with
         | |- context [if Qlt_bool ?a (inject_Z ?b / inject_Z ?c) then _
                       else _] =>
             destruct (Qlt_bool a (inject_Z b / inject_Z c))
         end; intros Hd; cbn; try (split; [reflexivity | auto]);
    exfalso; revert Hd; unfold Qlt; simpl; lia.
Qed.

(** X23.  With a usable reading, all warnings marked "measured" carry
    the one reading, converted to metres, whichever object they name;
    such a warning has priority 1 exactly when the reading is below
    50 cm, and its object lies in the sensor's cone. *)
Theorem X23_measured_warnings_share_the_reading (f : Fusion)
    (ultrasonic : option Q) (d : Q) (objects : list Detection) :
  truthy_reading ultrasonic = Some d ->
  Forall (fun w =>
            w_accuracy w = "measured"%string ->
            w_distance w = (d / 100)%Q /\
            (w_priority w = 1 <-> (d < 50)%Q) /\
            exists obj, In obj objects /\
                        class_name obj = w_object w /\
                        _is_in_sensor_view f (bbox obj) = true)
         (generate_obstacle_warnings f ultrasonic objects).
Proof.
  intros Hu. apply List.Forall_forall. intros w Hw.
  apply generate_obstacle_warnings_origin in Hw as (obj & Hin & -> & _ & _).
  unfold enhance. rewrite Hu.
  destruct (_is_in_sensor_view f (bbox obj)) eqn:Hv.
  - intros _. split; [| split].
    + unfold warn_one. cbn [precise_distance].
      destruct (Qlt_bool (d / 100) (1 # 2)), (Qlt_bool (d / 100) 1);
        reflexivity.
    + rewrite warn_one_priority. cbn [precise_distance].
      destruct (Qlt_bool (d / 100) (1 # 2)) eqn:E1.
      * apply Qlt_bool_iff in E1. unfold Qdiv in E1.
        change (/ 100)%Q with (1 # 100)%Q in E1.
        split; [intros _; lra | reflexivity].
      * apply Qlt_bool_false_iff in E1. unfold Qdiv in E1.
        change (/ 100)%Q with (1 # 100)%Q in E1.
        destruct (Qlt_bool (d / 100) 1); (split; [discriminate | lra]).
    + exists obj. split; [exact Hin |]. split; [| exact Hv].
      unfold warn_one. cbn [precise_distance e_det].
      destruct (Qlt_bool (d / 100) (1 # 2)), (Qlt_bool (d / 100) 1);
        reflexivity.
  - unfold warn_one. cbn [precise_distance distance_source e_det].
    destruct (Qlt_bool (_estimate_from_bbox f (bbox obj)) (1 # 2)),
      (Qlt_bool (_estimate_from_bbox f (bbox obj)) 1);
      cbn; discriminate.
Qed.

End FusionFactsProofs.

Section SensorConeProofs.
Import ObstacleFusion.

Lemma sensor_cone_arith (s w : Z) :
  0 < w ->
  ((Qabs.Qabs (inject_Z s / 2 - inject_Z w / 2) / inject_Z w * 60 < 15 / 2)%Q
   <-> 4 * Z.abs (s - w) < w).
Proof.
  intros Hw.
  assert (HW : (0 < inject_Z w)%Q)
    by (change 0%Q with (inject_Z 0); rewrite <- Zlt_Qlt; exact Hw).
  set (a := Qabs.Qabs (inject_Z s / 2 - inject_Z w / 2)).
  assert (H1 : (a / inject_Z w * 60 < 15 / 2)%Q
               <-> (a < inject_Z w * (1 # 8))%Q).
  { split; intros H.
    - assert (E : (a == a / inject_Z w * inject_Z w)%Q).
      { rewrite Qmult_comm, Qmult_div_r; [reflexivity | lra]. }
      rewrite E. rewrite (Qmult_comm (inject_Z w)).
      apply Qmult_lt_compat_r; [exact HW |].
      change (15 / 2)%Q with (15 # 2)%Q in H. lra.
    - assert (H2 : (a / inject_Z w < 1 # 8)%Q).
      { apply Qlt_shift_div_r; [exact HW |]. lra. }
      change (15 / 2)%Q with (15 # 2)%Q. lra. }
  rewrite H1. subst a. rewrite Qabs.Qabs_Qlt_condition.
  assert (E : (inject_Z (4 * (s - w)) == 4 * (inject_Z s - inject_Z w))%Q).
  { rewrite inject_Z_mult. unfold Zminus.
    rewrite inject_Z_plus, inject_Z_opp.
    change (inject_Z 4) with 4%Q. ring. }
  split.
  - intros [A B].
    assert (A' : (inject_Z (- w) < inject_Z (4 * (s - w)))%Q).
    { rewrite E, inject_Z_opp. unfold Qdiv in *.
      change (/ 2)%Q with (1 # 2)%Q in *. lra. }
    assert (B' : (inject_Z (4 * (s - w)) < inject_Z w)%Q).
    { rewrite E. unfold Qdiv in *.
      change (/ 2)%Q with (1 # 2)%Q in *. lra. }
    rewrite <- Zlt_Qlt in A', B'. lia.
  - intros H.
    assert (A' : (inject_Z (- w) < inject_Z (4 * (s - w)))%Q)
      by (rewrite <- Zlt_Qlt; lia).
    assert (B' : (inject_Z (4 * (s - w)) < inject_Z w)%Q)
      by (rewrite <- Zlt_Qlt; lia).
    rewrite E in A', B'. rewrite inject_Z_opp in A'.
    unfold Qdiv. change (/ 2)%Q with (1 # 2)%Q. split; lra.
Qed.

(** X24.  With the fields of view the constructor sets (camera 60
    degrees, sensor 15), a box is in the sensor's view exactly when its
    centre is less than an eighth of the frame width away from the
    middle of the frame: [4 * |x1 + x2 - width| < width].  The height of
    the frame and the vertical position of the box play no part. *)
Theorem X24_sensor_view_is_the_central_quarter (w h : Z) (b : BBox) :
  0 < w ->
  (_is_in_sensor_view (init w h) b = true
   <-> 4 * Z.abs (bx1 b + bx2 b - w) < w).
Proof.
  intros Hw. unfold _is_in_sensor_view, init.
  cbn [frame_width camera_fov sensor_fov].
  rewrite Qlt_bool_iff. now apply sensor_cone_arith.
Qed.

End SensorConeProofs.

Module FusionScenarios.
Import ObstacleFusion.

(** ["%.1f"] on the exact value: tenths, rounded half to even. *)
Definition q_floor (q : Q) : Z := Qnum q / Z.pos (Qden q).

Definition round_half_even (q : Q) : Z :=
  let twice := q_floor (2 * q) in
  let down := q_floor q in
  if Qeq_bool (inject_Z twice) (2 * q) && Z.odd twice
  then (if Z.even down then down else down + 1)
  else q_floor (q + (1 # 2)).

Definition digit (z : Z) : string :=
  String (ascii_of_N (48 + Z.to_N z)) EmptyString.

Fixpoint decimal_digits (fuel : nat) (z : Z) : string :=
  match fuel with
  | O => EmptyString
  | S fuel =>
      if z <? 10 then digit z
      else (decimal_digits fuel (z / 10) ++ digit (z mod 10))%string
  end.

(** Enough for twenty digits. *)
Definition decimal (z : Z) : string := decimal_digits 20 z.

Definition one_decimal (q : Q) : string :=
  let n := round_half_even (10 * Qabs.Qabs q) in
  let sign := if Qlt_bool q 0 && negb (n =? 0) then "-"%string
              else EmptyString in
  (sign ++ decimal (n / 10) ++ "." ++ decimal (n mod 10))%string.

Definition one_decimal_format : FloatFormat :=
  {| format_1f := one_decimal |}.

(** A person filling the middle of a 640x480 frame. *)
Definition webcam : Fusion := init 640 480.

Definition person_ahead : Detection :=
  mkDetection "person" (mkBBox 100 50 540 450) (9 # 10).

End FusionScenarios.

Lemma X24_sensor_view_is_the_central_quarter_witness :
  ObstacleFusion._is_in_sensor_view FusionScenarios.webcam
    (bbox FusionScenarios.person_ahead) = true.
Proof.
  apply (proj2 (X24_sensor_view_is_the_central_quarter 640 480
                  (bbox FusionScenarios.person_ahead) ltac:(lia))).
  vm_compute. reflexivity.
Defined.

Lemma X22_camera_only_warnings_never_stop_witness :
  List.map ObstacleFusion.w_priority
    (ObstacleFusion.generate_obstacle_warnings
       (FF := FusionScenarios.one_decimal_format)
       FusionScenarios.webcam None [FusionScenarios.person_ahead]) = [2] /\
  Forall (fun w => ObstacleFusion.w_accuracy w = "estimated"%string /\
                   (ObstacleFusion.w_priority w = 2 /\
                    ObstacleFusion.w_distance w = (1 # 2)%Q \/
                    ObstacleFusion.w_priority w = 3 /\
                    ObstacleFusion.w_distance w = 1%Q))
    (ObstacleFusion.generate_obstacle_warnings
       (FF := FusionScenarios.one_decimal_format)
       FusionScenarios.webcam None [FusionScenarios.person_ahead]).
Proof.
  split; [vm_compute; reflexivity |].
  apply (X22_camera_only_warnings_never_stop
           (FF := FusionScenarios.one_decimal_format)).
  reflexivity.
Defined.

Lemma X23_measured_warnings_share_the_reading_witness :
  List.map ObstacleFusion.w_message
    (ObstacleFusion.generate_obstacle_warnings
       (FF := FusionScenarios.one_decimal_format)
       FusionScenarios.webcam (Some 30%Q) [FusionScenarios.person_ahead])
    = ["STOP! Person 0.3m ahead"%string] /\
  Forall (fun w =>
            ObstacleFusion.w_accuracy w = "measured"%string ->
            ObstacleFusion.w_distance w = (30 / 100)%Q /\
            (ObstacleFusion.w_priority w = 1 <-> (30 < 50)%Q) /\
            exists obj, In obj [FusionScenarios.person_ahead] /\
                        class_name obj = ObstacleFusion.w_object w /\
                        ObstacleFusion._is_in_sensor_view
                          FusionScenarios.webcam (bbox obj) = true)
    (ObstacleFusion.generate_obstacle_warnings
       (FF := FusionScenarios.one_decimal_format)
       FusionScenarios.webcam (Some 30%Q) [FusionScenarios.person_ahead]).
Proof.
  split; [vm_compute; reflexivity |].
  apply (X23_measured_warnings_share_the_reading
           (FF := FusionScenarios.one_decimal_format)).
  reflexivity.
Defined.

(** ** gps_tracker.py: the mock receiver *)

Module GPSTracker.

(** The attributes [get_position] works on.  [mock_path_index] is
    [None] while the attribute does not exist.  [last_update], [speed]
    and [heading] are left out. *)
Record GPS := mkGPS {
  mock_mode : bool;
  current_position : option (Q * Q);
  mock_path_index : option Z;
  mock_path : list (Q * Q)
}.

(** A call returns a value or raises. *)
Inductive Outcome :=
| Raised
| Returned (position : option (Q * Q)).

Definition _generate_mock_path : list (Q * Q) :=
  [(12926516 # 1000000, 77526422 # 1000000);
   (12926600 # 1000000, 77526500 # 1000000);
   (12926700 # 1000000, 77526600 # 1000000);
   (12926800 # 1000000, 77526700 # 1000000);
   (12926900 # 1000000, 77526800 # 1000000);
   (12927000 # 1000000, 77526900 # 1000000);
   (12927100 # 1000000, 77527000 # 1000000);
   (12927200 # 1000000, 77527100 # 1000000);
   (12927300 # 1000000, 77527200 # 1000000);
   (12927400 # 1000000, 77527300 # 1000000)]%Q.

(** [__init__] in mock mode, and in serial mode when the port cannot be
    opened: the fallback sets [mock_mode] and [mock_path] only. *)
Definition init_mock : GPS := mkGPS true None (Some 0) _generate_mock_path.
Definition init_serial_failed : GPS :=
  mkGPS true None None _generate_mock_path.

(** [l[i]] for a Python list: negative indices count from the end. *)
Definition py_index {A} (l : list A) (i : Z) : option A :=
  let n := Z.of_nat (length l) in
  if (0 <=? i) && (i <? n) then nth_error l (Z.to_nat i)
  else if (- n <=? i) && (i <? 0) then nth_error l (Z.to_nat (n + i))
  else None.

(** [_get_mock_position]: the index is clamped and written back before
    the path is read. *)
Definition _get_mock_position (g : GPS) : Outcome * GPS :=
  match mock_path_index g with
  | None => (Raised, g)
  | Some i =>
      let n := Z.of_nat (length (mock_path g)) in
      let i := if n <=? i then n - 1 else i in
      let g := mkGPS (mock_mode g) (current_position g) (Some i)
                     (mock_path g) in
      match py_index (mock_path g) i with
      | None => (Raised, g)
      | Some position =>
          (Returned (Some position),
           mkGPS (mock_mode g) (Some position) (Some i) (mock_path g))
      end
  end.

Definition get_position (g : GPS) : Outcome * GPS :=
  if mock_mode g then _get_mock_position g
  else (Returned (current_position g), g).

(** [advance_mock_position]; [None] when [+=] raises on the missing
    attribute. *)
Definition advance_mock_position (g : GPS) : option GPS :=
  if mock_mode g then
    match mock_path_index g with
    | None => None
    | Some i =>
        Some (mkGPS (mock_mode g) (current_position g) (Some (i + 1))
                    (mock_path g))
    end
  else Some g.

Definition set_mock_path (path : list (Q * Q)) (g : GPS) : GPS :=
  mkGPS (mock_mode g) (current_position g) (Some 0) path.

(** A test driver's calls, in order. *)
Inductive Call := Get | Advance.

Fixpoint calls (cs : list Call) (g : GPS) : option GPS :=
  match cs with
  | [] => Some g
  | Get :: rest =>
      match get_position g with
      | (Raised, _) => None
      | (Returned _, g1) => calls rest g1
      end
  | Advance :: rest =>
      match advance_mock_position g with
      | None => None
      | Some g1 => calls rest g1
      end
  end.

Definition advances (cs : list Call) : Z :=
  Z.of_nat (length (List.filter
                      (fun c => match c with Advance => true | Get => false end)
                      cs)).

End GPSTracker.

Section GPSTrackerProofs.
Import GPSTracker.

Lemma py_index_in_range {A} (l : list A) (i : Z) :
  0 <= i < Z.of_nat (length l) ->
  py_index l i = nth_error l (Z.to_nat i) /\
  is_Some (nth_error l (Z.to_nat i)).
Proof.
  intros H. unfold py_index.
  destruct (Z.leb_spec 0 i); [| lia].
  destruct (Z.ltb_spec i (Z.of_nat (length l))); [| lia].
  split; [reflexivity |].
  destruct (nth_error l (Z.to_nat i)) eqn:E; [eauto |].
  apply List.nth_error_None in E. lia.
Qed.

Lemma calls_mock (cs : list Call) :
  forall (g : GPS) (j : Z),
    mock_mode g = true ->
    mock_path_index g = Some j ->
    0 <= j ->
    mock_path g <> [] ->
    exists g' j',
      calls cs g = Some g' /\
      mock_mode g' = true /\
      mock_path g' = mock_path g /\
      mock_path_index g' = Some j' /\
      0 <= j' /\
      Z.min j' (Z.of_nat (length (mock_path g)) - 1)
        = Z.min (j + advances cs) (Z.of_nat (length (mock_path g)) - 1).
Proof.
  induction cs as [| c cs IH]; intros g j Hm Hj H0 Hp.
  - exists g, j. unfold advances. simpl. rewrite Z.add_0_r.
    repeat split; auto.
  - assert (Hlen : 0 < Z.of_nat (length (mock_path g)))
      by (destruct (mock_path g); [congruence | simpl; lia]).
    destruct c.
    + cbn [calls]. unfold get_position, _get_mock_position.
      rewrite Hm, Hj. cbv zeta.
      cbn [mock_path mock_mode current_position mock_path_index].
      set (n := Z.of_nat (length (mock_path g))) in *.
      set (i := if n <=? j then n - 1 else j).
      assert (Hi : 0 <= i < n)
        by (subst i; destruct (Z.leb_spec n j); lia).
      destruct (py_index_in_range (mock_path g) i Hi) as [E [p Ep]].
      rewrite E, Ep.
      destruct (IH (mkGPS true (Some p) (Some i) (mock_path g)) i
                   eq_refl eq_refl (proj1 Hi) Hp)
        as (g' & j' & C1 & C2 & C3 & C4 & C5 & C6).
      rewrite ?Hm. exists g', j'. cbn [mock_path] in *.
      fold n in C6. repeat split; auto. rewrite C6.
      change (advances (Get :: cs)) with (advances cs).
      assert (0 <= advances cs) by (unfold advances; lia).
      subst i. destruct (Z.leb_spec n j); lia.
    + cbn [calls]. unfold advance_mock_position. rewrite Hm, Hj.
      destruct (IH (mkGPS true (current_position g) (Some (j + 1))
                          (mock_path g)) (j + 1)
                   eq_refl eq_refl ltac:(lia) Hp)
        as (g' & j' & C1 & C2 & C3 & C4 & C5 & C6).
      rewrite ?Hm. exists g', j'. cbn [mock_path] in *.
      repeat split; auto. rewrite C6.
      replace (advances (Advance :: cs)) with (advances cs + 1)
        by (unfold advances; cbn [List.filter length]; lia).
      f_equal. lia.
Qed.

(** X25.  The mock receiver walks its path and stays on the last point.
    Started on a non-empty path, no sequence of [get_position] and
    [advance_mock_position] calls raises, and the next [get_position]
    returns the point whose index is the start index plus the number of
    advances made, or the last point of the path once that number runs
    past it.  A tracker that fell back to mock mode because the serial
    port failed has no index: [get_position] and
    [advance_mock_position] raise until [set_mock_path] is called. *)
Theorem X25_mock_gps_walks_the_path_and_stays (cs : list Call) (g : GPS)
    (j : Z) :
  (mock_mode g = true ->
   mock_path_index g = Some j ->
   0 <= j ->
   mock_path g <> [] ->
   exists g' p,
     calls cs g = Some g' /\
     fst (get_position g') = Returned (Some p) /\
     nth_error (mock_path g)
       (Z.to_nat (Z.min (j + advances cs)
                    (Z.of_nat (length (mock_path g)) - 1))) = Some p) /\
  fst (get_position init_serial_failed) = Raised /\
  advance_mock_position init_serial_failed = None /\
  (forall path,
     mock_path_index (set_mock_path path init_serial_failed) = Some 0).
Proof.
  split; [| repeat split].
  intros Hm Hj H0 Hp.
  destruct (calls_mock cs g j Hm Hj H0 Hp)
    as (g' & j' & C1 & C2 & C3 & C4 & C5 & C6).
  assert (Hlen : 0 < Z.of_nat (length (mock_path g)))
    by (destruct (mock_path g); [congruence | simpl; lia]).
  set (n := Z.of_nat (length (mock_path g))) in *.
  set (i := if n <=? j' then n - 1 else j').
  assert (Hi : 0 <= i < n) by (subst i; destruct (Z.leb_spec n j'); lia).
  assert (Ei : i = Z.min (j + advances cs) (n - 1)).
  { rewrite <- C6. subst i. destruct (Z.leb_spec n j'); lia. }
  destruct (py_index_in_range (mock_path g) i Hi) as [E [p Ep]].
  exists g', p. split; [exact C1 |]. split.
  - unfold get_position, _get_mock_position. rewrite C2, C4. cbv zeta.
    cbn [mock_path mock_mode current_position mock_path_index].
    rewrite C3. fold n. fold i. rewrite E, Ep. reflexivity.
  - rewrite <- Ei. exact Ep.
Qed.

End GPSTrackerProofs.

Lemma X25_mock_gps_walks_the_path_and_stays_witness :
  exists g',
    GPSTracker.calls
      (List.repeat GPSTracker.Advance 12 ++ [GPSTracker.Get])
      GPSTracker.init_mock = Some g' /\
    fst (GPSTracker.get_position g')
      = GPSTracker.Returned
          (Some (12927400 # 1000000, 77527300 # 1000000)%Q).
Proof.
  destruct (X25_mock_gps_walks_the_path_and_stays
              (List.repeat GPSTracker.Advance 12 ++ [GPSTracker.Get])
              GPSTracker.init_mock 0) as [H _].
  destruct H as (g' & p & H1 & H2 & H3);
    [reflexivity | reflexivity | lia | discriminate |].
  exists g'. split; [exact H1 |]. rewrite H2.
  vm_compute in H3. now injection H3 as <-.
Defined.

(** ** Matching across the two kinds of features *)

Section MatchingFactsProofs.
Import Database VisualMatcher ObjectMemory Props.
Context {Image : Type} {B : Backend Image}.

Lemma match_features_other_kind (q f : Features) :
  is_deep q = negb (is_deep f) -> match_features q f = (0%Q, 0%nat).
Proof.
  destruct q, f; cbn; try discriminate; intros _.
  - reflexivity.
  - destruct (descriptors k); reflexivity.
Qed.




(** X26.  Features of the two kinds never match.  If every remembered
    object of the class was enrolled with the other kind of features
    than the matcher now extracts -- embeddings where it reads
    keypoints, or keypoints where it reads embeddings --
    [recognize_object] finds nothing, whatever the frame and the
    threshold. *)
Theorem X26_objects_of_the_other_kind_are_never_recognized
    (om : @Memory Image) (image : Image) (bb : BBox) (cls : string) :
  Forall (fun r => ro_yolo_class r = cls ->
                   is_deep (ro_visual_features r)
                     = negb (use_deep_features (matcher om)))
         (remembered_objects (db om)) ->
  recognize_object image bb cls om = None.
Proof.
  intros Hall. unfold recognize_object.
  destruct (get_remembered_objects_by_class cls (db om)) as [| c cs] eqn:Ec;
    [reflexivity |].
  destruct (negb (valid_features (extract_features (matcher om) image bb)));
    [reflexivity |].
  rewrite (proj2 (find_best_match_none (matcher om)
                    (extract_features (matcher om) image bb) (c :: cs)));
    [reflexivity |].
  rewrite <- Ec. unfold get_remembered_objects_by_class.
  apply List.Forall_forall. intros x Hx.
  apply List.in_map_iff in Hx as (r & <- & Hr).
  apply List.filter_In in Hr as [Hr Hc]. apply String.eqb_eq in Hc.
  rewrite List.Forall_forall in Hall. specialize (Hall r Hr Hc).
  intros [Hpos _]. unfold conf in Hpos. cbn [snd] in Hpos.
  rewrite match_features_other_kind in Hpos.
  - cbn in Hpos. revert Hpos. apply Qlt_irrefl.
  - rewrite extract_features_shape, Hall. now rewrite negb_involutive.
Qed.


End MatchingFactsProofs.

(** The key rings were enrolled with embeddings; a matcher on keypoints
    does not recognize them. *)
Lemma X26_objects_of_the_other_kind_are_never_recognized_witness :
  ObjectMemory.recognize_object (B := ObjectMemory.example_backend)
    Scenarios.keys_frame Scenarios.keys_box "keys"
    Scenarios.wallet_enrollment = None.
Proof.
  apply (X26_objects_of_the_other_kind_are_never_recognized
           (B := ObjectMemory.example_backend)).
  repeat constructor.
Defined.


(** ** wireless/laptop_server.py: GPS navigation inside the frame loop *)

Module LaptopServer.
Import NavigationEngine AudioFeedback ObstacleFusion.

(** [int(x)] truncates towards zero; [str] of an integer. *)
Definition py_int (x : Q) : Z := Z.quot (Qnum x) (Z.pos (Qden x)).

Fixpoint digits (fuel : nat) (z : Z) : string :=
  match fuel with
  | O => EmptyString
  | S fuel =>
      let d := String (ascii_of_N (48 + Z.to_N (z mod 10))) EmptyString in
      if z <? 10 then d else (digits fuel (z / 10) ++ d)%string
  end.

Definition str_int (z : Z) : string :=
  let n := Z.abs z in
  let s := digits (S (Z.to_nat (Z.log2 n))) n in
  if z <? 0 then ("-" ++ s)%string else s.

(** The attributes of the server that GPS navigation reads and writes,
    and the audio queue it speaks to. *)
Record Server := mkServer {
  gps_navigation_active : bool;
  gps_nav_step : nat;
  last_gps_update : Q;
  gps_update_interval : Q;
  last_gps_announcement : option nat;
  audio_enabled : bool;
  audio : Audio
}.

(** The dictionary [_update_gps_navigation] returns. *)
Record GpsInfo := mkGpsInfo {
  gi_step : nat;
  gi_total_steps : nat;
  gi_instruction : string;
  gi_distance : Z
}.

Definition with_audio (f : Audio -> Audio) (s : Server) : Server :=
  mkServer (gps_navigation_active s) (gps_nav_step s) (last_gps_update s)
    (gps_update_interval s) (last_gps_announcement s) (audio_enabled s)
    (if audio_enabled s then f (audio s) else audio s).

(** "Announce when close". *)
Definition announce_when_close (distance : Q) (instruction : string)
    (s : Server) : Server :=
  if Qle_bool distance Config.NAVIGATION_ANNOUNCEMENT_DISTANCE then
    if match last_gps_announcement s with
       | Some a => negb (Nat.eqb a (gps_nav_step s))
       | None => true
       end
    then
      with_audio
        (speak_navigational
           ("In " ++ str_int (py_int distance) ++ " meters, "
              ++ instruction)%string)
        (mkServer (gps_navigation_active s) (gps_nav_step s)
           (last_gps_update s) (gps_update_interval s)
           (Some (gps_nav_step s)) (audio_enabled s) (audio s))
    else s
  else s.

(** "Advance if very close". *)
Definition advance_if_very_close (distance : Q) (total_steps : nat)
    (s : Server) : Server :=
  if Qlt_bool distance 10 then
    if (gps_nav_step s + 1 <? total_steps)%nat then
      mkServer (gps_navigation_active s) (gps_nav_step s + 1)
        (last_gps_update s) (gps_update_interval s) None
        (audio_enabled s) (audio s)
    else
      let s := with_audio
                 (speak_social "You have arrived at your destination") s in
      mkServer false (gps_nav_step s) (last_gps_update s)
        (gps_update_interval s) (last_gps_announcement s)
        (audio_enabled s) (audio s)
  else s.

(** "Obstacle warnings during GPS nav"; [warnings] is what
    [generate_obstacle_warnings] returns for the frame. *)
Definition warn_during_navigation (warnings : list Warning) (s : Server)
    : Server :=
  match warnings with
  | w :: _ =>
      if w_priority w <=? 2 then with_audio (speak_emergency (w_message w)) s
      else s
  | [] => s
  end.

Section Update.
Context {G : Geodesy}.

(** [_update_gps_navigation]; [now] is [time.time()], [current_pos]
    what the GPS tracker returns, [steps] the steps of the current
    route. *)
Definition _update_gps_navigation (now : Q) (current_pos : option (Q * Q))
    (steps : list RouteStep) (warnings : list Warning) (s : Server)
    : option GpsInfo * Server :=
  if Qlt_bool (now - last_gps_update s) (gps_update_interval s) then (None, s)
  else
    let s := mkServer (gps_navigation_active s) (gps_nav_step s) now
               (gps_update_interval s) (last_gps_announcement s)
               (audio_enabled s) (audio s) in
    match current_pos with
    | None => (None, s)
    | Some pos =>
        match nth_error steps (gps_nav_step s) with
        | None => (None, s)
        | Some step =>
            let distance :=
              _haversine_distance (fst pos) (snd pos)
                (fst (end_location step)) (snd (end_location step)) in
            let s := announce_when_close distance (instruction step) s in
            let s := advance_if_very_close distance (length steps) s in
            let s := warn_during_navigation warnings s in
            (Some (mkGpsInfo (gps_nav_step s + 1) (length steps)
                     (String.substring 0 60 (instruction step))
                     (py_int distance)),
             s)
        end
    end.

(** Step 5 of [process_ml]. *)
Definition gps_navigation (now : Q) (current_pos : option (Q * Q))
    (current_route : option Route) (warnings : list Warning) (s : Server)
    : option GpsInfo * Server :=
  if gps_navigation_active s then
    match current_route with
    | Some route =>
        _update_gps_navigation now current_pos (NavigationEngine.steps route)
          warnings s
    | None => (None, s)
    end
  else (None, s).

(** Frame after frame on one route. *)
Fixpoint frames (inputs : list (Q * option (Q * Q) * list Warning))
    (current_route : option Route) (s : Server)
    : list (option GpsInfo) * Server :=
  match inputs with
  | [] => ([], s)
  | (now, current_pos, warnings) :: rest =>
      let '(info, s1) :=
        gps_navigation now current_pos current_route warnings s in
      let '(infos, s2) := frames rest current_route s1 in
      (info :: infos, s2)
  end.

(** The frames of a walk: each comes no sooner than the update interval
    after the one before and has a fix less than 10 m from the end of
    the step the walk has reached. *)
Fixpoint close_walk (steps : list RouteStep) (k : nat) (last interval : Q)
    (inputs : list (Q * option (Q * Q) * list Warning)) : Prop :=
  match inputs with
  | [] => True
  | (now, current_pos, _) :: rest =>
      (interval <= now - last)%Q /\
      (exists pos step,
         current_pos = Some pos /\
         nth_error steps k = Some step /\
         (_haversine_distance (fst pos) (snd pos)
            (fst (end_location step)) (snd (end_location step)) < 10)%Q) /\
      close_walk steps (S k) now interval rest
  end.

End Update.

End LaptopServer.

Section LaptopServerProofs.
Import NavigationEngine AudioFeedback ObstacleFusion LaptopServer.
Context {G : Geodesy}.

(** One frame of a walk. *)
Lemma gps_navigation_close (now : Q) (pos : Q * Q) (route : Route)
    (step : RouteStep) (warnings : list Warning) (s : Server) :
  gps_navigation_active s = true ->
  (gps_update_interval s <= now - last_gps_update s)%Q ->
  nth_error (steps route) (gps_nav_step s) = Some step ->
  (_haversine_distance (fst pos) (snd pos)
     (fst (end_location step)) (snd (end_location step)) < 10)%Q ->
  let k := gps_nav_step s in
  let n := length (steps route) in
  let k' := if (k + 1 <? n)%nat then (k + 1)%nat else k in
  let r := gps_navigation now (Some pos) (Some route) warnings s in
  option_map gi_step (fst r) = Some (k' + 1)%nat /\
  gps_nav_step (snd r) = k' /\
  gps_navigation_active (snd r) = (k + 1 <? n)%nat /\
  last_gps_update (snd r) = now /\
  gps_update_interval (snd r) = gps_update_interval s.
Proof.
  intros Ha Hdue Hstep Hd k n k' r. subst r k' k n.
  unfold gps_navigation, _update_gps_navigation. rewrite Ha.
  apply Qlt_bool_false_iff in Hdue. rewrite Hdue.
  cbv zeta. cbn [gps_nav_step]. rewrite Hstep.
  set (d := _haversine_distance _ _ _ _) in *.
  apply Qlt_bool_iff in Hd.
  set (s0 := mkServer _ _ _ _ _ _ _).
  assert (A : gps_navigation_active (announce_when_close d (instruction step) s0)
              = true /\
              gps_nav_step (announce_when_close d (instruction step) s0)
              = gps_nav_step s /\
              last_gps_update (announce_when_close d (instruction step) s0)
              = now /\
              gps_update_interval (announce_when_close d (instruction step) s0)
              = gps_update_interval s).
  { unfold announce_when_close.
    destruct (Qle_bool d Config.NAVIGATION_ANNOUNCEMENT_DISTANCE);
      [| subst s0; cbn; auto].
    destruct (match last_gps_announcement s0 with
              | Some a => negb (Nat.eqb a (gps_nav_step s0))
              | None => true
              end); subst s0; cbn; auto. }
  destruct A as (A1 & A2 & A3 & A4).
  set (s1 := announce_when_close d (instruction step) s0) in *.
  assert (W : forall s2,
            gps_navigation_active (warn_during_navigation warnings s2)
              = gps_navigation_active s2 /\
            gps_nav_step (warn_during_navigation warnings s2)
              = gps_nav_step s2 /\
            last_gps_update (warn_during_navigation warnings s2)
              = last_gps_update s2 /\
            gps_update_interval (warn_during_navigation warnings s2)
              = gps_update_interval s2).
  { intros s2. unfold warn_during_navigation.
    destruct warnings as [| w ws]; [auto |].
    destruct (w_priority w <=? 2); cbn; auto. }
  destruct (W (advance_if_very_close d (length (steps route)) s1))
    as (W1 & W2 & W3 & W4).
  cbn [fst snd option_map gi_step]. rewrite W1, W2, W3, W4.
  unfold advance_if_very_close. rewrite Hd, A2.
  destruct (gps_nav_step s + 1 <? length (steps route))%nat; cbn; auto.
Qed.

Lemma frames_close_walk (route : Route)
    (inputs : list (Q * option (Q * Q) * list Warning)) :
  forall s : Server,
    gps_navigation_active s = true ->
    (gps_nav_step s < length (steps route))%nat ->
    close_walk (steps route) (gps_nav_step s) (last_gps_update s)
      (gps_update_interval s) inputs ->
    let k := gps_nav_step s in
    let n := length (steps route) in
    let r := frames inputs (Some route) s in
    (k + length inputs <= n)%nat /\
    gps_nav_step (snd r) = Nat.min (k + length inputs) (n - 1) /\
    gps_navigation_active (snd r) = (k + length inputs <? n)%nat /\
    List.map (option_map gi_step) (fst r)
      = List.map (fun j => Some (Nat.min j n))
          (List.seq (k + 2) (length inputs)).
Proof.
  induction inputs as [| [[now current_pos] warnings] rest IH];
    intros s Ha Hk Hw k n r; subst r k n.
  - cbn [frames fst snd length List.seq List.map].
    rewrite Nat.add_0_r. repeat split; try lia.
    rewrite Ha. symmetry. now apply Nat.ltb_lt.
  - cbn [close_walk] in Hw.
    destruct Hw as (Hdue & (pos & step & -> & Hstep & Hd) & Hrest).
    pose proof (gps_navigation_close now pos route step warnings s
                  Ha Hdue Hstep Hd) as H.
    cbv zeta in H. destruct H as (H1 & H2 & H3 & H4 & H5).
    cbn [frames].
    destruct (gps_navigation now (Some pos) (Some route) warnings s)
      as [info s1] eqn:E1.
    cbn [fst snd] in H1, H2, H3, H4, H5.
    destruct (frames rest (Some route) s1) as [infos s2] eqn:E2.
    cbn [fst snd length List.map List.seq].
    destruct (Nat.ltb_spec (gps_nav_step s + 1) (length (steps route)))
      as [Hlt | Hge].
    + assert (Hrest' : close_walk (steps route) (gps_nav_step s1)
                         (last_gps_update s1) (gps_update_interval s1) rest).
      { rewrite H2, H4, H5.
        replace (gps_nav_step s + 1)%nat with (S (gps_nav_step s)) by lia.
        exact Hrest. }
      specialize (IH s1 H3 ltac:(lia) Hrest'). cbv zeta in IH.
      rewrite E2 in IH. cbn [fst snd] in IH.
      destruct IH as (I1 & I2 & I3 & I4). rewrite H2 in I1, I2, I3, I4.
      split; [lia |]. split; [rewrite I2; f_equal; lia |].
      split; [rewrite I3; f_equal; lia |].
      rewrite H1, I4. f_equal.
      * f_equal. lia.
      * f_equal. f_equal. lia.
    + assert (rest = []) as ->.
      { destruct rest as [| [[now' pos'] ws'] rest']; [reflexivity |].
        cbn [close_walk] in Hrest.
        destruct Hrest as (_ & (p' & st' & _ & Hs' & _) & _).
        assert (nth_error (steps route) (S (gps_nav_step s)) <> None)
          as Hs'' by congruence.
        apply List.nth_error_Some in Hs''. lia. }
      cbn [frames] in E2. injection E2 as <- <-.
      cbn [length List.map List.seq].
      split; [lia |]. split; [lia |].
      split; [rewrite H3; symmetry; apply Nat.ltb_ge; lia |].
      rewrite H1. f_equal. f_equal. lia.
Qed.

(** X28.  The server's own stepper does reach the destination.  Let
    frames arrive no faster than the update interval, each with a fix
    less than 10 m from the end of the step the walk has reached.  Then
    the walk cannot have more frames than steps are left; after its
    frames the step index has moved on by one per frame, stopping at the
    last step, and navigation is switched off exactly by the frame at
    the end of the last step.  Each frame reports the step the walk goes
    on with.  Once switched off, later frames do nothing. *)
Theorem X28_server_walk_reaches_the_destination (route : Route)
    (inputs : list (Q * option (Q * Q) * list Warning)) (s : Server) :
  gps_navigation_active s = true ->
  (gps_nav_step s < length (steps route))%nat ->
  close_walk (steps route) (gps_nav_step s) (last_gps_update s)
    (gps_update_interval s) inputs ->
  let k := gps_nav_step s in
  let n := length (steps route) in
  let r := frames inputs (Some route) s in
  (k + length inputs <= n)%nat /\
  gps_nav_step (snd r) = Nat.min (k + length inputs) (n - 1) /\
  gps_navigation_active (snd r) = (k + length inputs <? n)%nat /\
  List.map (option_map gi_step) (fst r)
    = List.map (fun j => Some (Nat.min j n))
        (List.seq (k + 2) (length inputs)) /\
  (gps_navigation_active (snd r) = false ->
   forall later,
     frames later (Some route) (snd r)
       = (List.map (fun _ => None) later, snd r)).
Proof.
  intros Ha Hk Hw k n r.
  destruct (frames_close_walk route inputs s Ha Hk Hw)
    as (F1 & F2 & F3 & F4).
  repeat split; try assumption.
  intros Hoff later. induction later as [| [[now pos] ws] later IH];
    [reflexivity |].
  cbn [frames]. unfold gps_navigation at 1. rewrite Hoff.
  fold r. rewrite IH. reflexivity.
Qed.

End LaptopServerProofs.

Module ServerScenarios.
Import LaptopServer.

(** GPS navigation just started, as [handle_navigate_to] leaves it. *)
Definition navigating : Server :=
  mkServer true 0 0 2 None true AudioFeedback.init.

(** Two frames on [Scenarios.walk]: on the first waypoint at 2 s, on the
    destination at 4 s. *)
Definition two_frames
    : list (Q * option (Q * Q) * list ObstacleFusion.Warning) :=
  [(2%Q, Some (0, 0)%Q, []); (4%Q, Some Scenarios.at_destination, [])].

End ServerScenarios.

Lemma X28_server_walk_reaches_the_destination_witness :
  LaptopServer.gps_navigation_active
    (snd (LaptopServer.frames (G := NavigationEngine.meridian_geodesy)
            ServerScenarios.two_frames (Some Scenarios.walk)
            ServerScenarios.navigating)) = false.
Proof.
  destruct (X28_server_walk_reaches_the_destination
              (G := NavigationEngine.meridian_geodesy)
              Scenarios.walk ServerScenarios.two_frames
              ServerScenarios.navigating) as (_ & _ & H & _).
  - reflexivity.
  - vm_compute. lia.
  - cbn [LaptopServer.close_walk ServerScenarios.two_frames].
    split; [vm_compute; discriminate |]. split.
    { exists (0, 0)%Q. eexists. split; [reflexivity |].
      split; [reflexivity |]. vm_compute. reflexivity. }
    split; [vm_compute; discriminate |]. split; [| exact I].
    exists Scenarios.at_destination. eexists. split; [reflexivity |].
    split; [reflexivity |]. vm_compute. reflexivity.
  - rewrite H. reflexivity.
Defined.
